(** * eggpy: the quote bot's message pipeline, quote store and topic renumbering

    A shallow embedding of [eggy/eggy.py].  Python objects become records,
    methods become functions that pass the receiver's state explicitly, and
    a method that can raise returns an outcome next to the state it leaves
    behind.  The IRC transport ([ircutils]) is the boundary: what the bot
    hands to it ([send_message], [execute], [set_nickname]) is recorded in
    the order it is issued. *)

From Stdlib Require Import ZArith Lia List Ascii String Bool.
From stdpp Require Import base gmap strings list.
Import ListNotations.

Local Open Scope Z_scope.

(** ** Python values *)

(** A Python [str] is a sequence of characters; characters are modelled as
    8-bit code points, on which the regular-expression class [\d] is
    exactly [0-9]. *)
Abbreviation str := (list ascii).

(** A string literal of the source. *)
Definition py (s : string) : str := String.list_ascii_of_string s.

Definition LF : ascii := "010"%char.
Definition CR : ascii := "013"%char.

Definition ord (c : ascii) : nat := nat_of_ascii c.
Definition chr (n : nat) : ascii := ascii_of_nat n.

(** [s.startswith(prefix)] *)
Fixpoint startswith (s prefix : str) {struct prefix} : bool :=
  match prefix, s with
  | [], _ => true
  | p :: prefix', c :: s' => (c =? p)%char && startswith s' prefix'
  | _ :: _, [] => false
  end.

(** [sub in s] for two strings: [sub] occurs in [s] as a substring. *)
Fixpoint str_in (sub s : str) : bool :=
  startswith s sub ||
  match s with
  | [] => false
  | _ :: s' => str_in sub s'
  end.

(** [s.rstrip(chars)]: drop the longest suffix made of characters of [chars]. *)
Fixpoint rstrip (chars s : str) : str :=
  match s with
  | [] => []
  | c :: s' =>
      match rstrip chars s' with
      | [] => if bool_decide (c ∈ chars) then [] else [c]
      | r => c :: r
      end
  end.

(** *** Integers and their decimal text *)

Definition is_digit (c : ascii) : bool :=
  ((48 <=? ord c) && (ord c <=? 57))%nat.

Definition digit_val (c : ascii) : Z := Z.of_nat (ord c - 48).

Definition digit_char (d : Z) : ascii := chr (48 + Z.to_nat d).

Fixpoint digits_aux (fuel : nat) (n : Z) (acc : str) : str :=
  match fuel with
  | O => acc
  | S fuel' =>
      let acc' := digit_char (n mod 10) :: acc in
      if n / 10 =? 0 then acc' else digits_aux fuel' (n / 10) acc'
  end.

(** Decimal digits of a non-negative integer, most significant first. *)
Definition digits (n : Z) : str := digits_aux (S (Z.to_nat n)) n [].

(** [str(n)] for an [int]. *)
Definition str_int (n : Z) : str :=
  if n <? 0 then "-"%char :: digits (- n) else digits n.

(** Value of a run of decimal digits. *)
Definition digits_value (s : str) : Z :=
  fold_left (fun acc c => acc * 10 + digit_val c) s 0.

(** The integer written by an optional minus sign and decimal digits (group 1
    of [GetQuote]'s pattern): [int(s)] where the interpreter puts no limit on
    the number of digits.  [int_limited], below, is [int(s)] with the limit. *)
Definition py_int (s : str) : Z :=
  match s with
  | c :: s' => if (c =? "-")%char then - digits_value s' else digits_value s
  | [] => 0
  end.

(** [re.sub(re.compile(pat), repl, s)] where [pat] and [repl] are decimal
    numerals: the pattern has no metacharacter and the replacement no
    escape, so every leftmost non-overlapping occurrence of [pat] is
    replaced by [repl].  [skip] counts the characters of a match still to
    be consumed.  ([pat] is never empty here.) *)
Fixpoint re_sub_from (pat repl : str) (skip : nat) (s : str) : str :=
  match s with
  | [] => []
  | c :: s' =>
      match skip with
      | S k => re_sub_from pat repl k s'
      | O =>
          if startswith s pat
          then repl ++ re_sub_from pat repl (length pat - 1) s'
          else c :: re_sub_from pat repl 0 s'
      end
  end.

Definition re_sub (pat repl s : str) : str := re_sub_from pat repl 0 s.

(** *** [repr] of a string, as [str(KeyError(key))] prints it *)

Definition hex_digit (n : nat) : ascii :=
  if (n <? 10)%nat then chr (48 + n) else chr (87 + n).

Definition printable (c : ascii) : bool :=
  let n := ord c in
  negb ((n <? 32)%nat || ((127 <=? n)%nat && (n <=? 160)%nat) || (n =? 173)%nat).

Definition repr_char (quote c : ascii) : str :=
  if (c =? "\")%char then py "\\"
  else if (c =? quote)%char then ["\"%char; c]
  else if (c =? LF)%char then py "\n"
  else if (c =? CR)%char then py "\r"
  else if (c =? "009")%char then py "\t"
  else if printable c then [c]
  else py "\x" ++ [hex_digit (ord c / 16); hex_digit (ord c mod 16)].

Definition DQUOTE : ascii := "034"%char.
Definition SQUOTE : ascii := "'"%char.

Definition repr (s : str) : str :=
  let quote :=
    if bool_decide (SQUOTE ∈ s) && negb (bool_decide (DQUOTE ∈ s))
    then DQUOTE else SQUOTE in
  quote :: concat (map (repr_char quote) s) ++ [quote].

(** *** Exceptions and outcomes *)

(** An instance of Python's [Exception], the class the dispatcher's
    [except] clause names: its class name and [str(err)]. *)
Record Exception := mkException { exc_class : str; exc_str : str }.

Definition ValueError : Exception := mkException (py "ValueError") [].
Definition KeyError (key : str) : Exception :=
  mkException (py "KeyError") (repr key).
Definition IndexError : Exception :=
  mkException (py "IndexError") (py "list index out of range").

(** [str(type(err))] *)
Definition type_str (err : Exception) : str :=
  py "<class '" ++ exc_class err ++ py "'>".

(** What a call produces: a returned value or a raised exception. *)
Inductive result (A : Type) : Type :=
| Return (a : A)
| Raise (err : Exception).
Arguments Return {A} a.
Arguments Raise {A} err.

(** ** The quotes file *)

(** Reading a text file opened with the default [newline=None]: the line
    endings ["\r\n"] and ["\r"] are translated to ["\n"]. *)
Fixpoint universal_newlines (s : str) : str :=
  match s with
  | [] => []
  | c :: s' =>
      if (c =? CR)%char then
        match s' with
        | c' :: s'' =>
            if (c' =? LF)%char then LF :: universal_newlines s''
            else LF :: universal_newlines s'
        | [] => [LF]
        end
      else c :: universal_newlines s'
  end.

(** Iterating over a file object: the lines in order, each with its
    terminating ["\n"] (the last line may lack one). *)
Fixpoint readlines (s : str) : list str :=
  match s with
  | [] => []
  | c :: s' =>
      if (c =? LF)%char then [c] :: readlines s'
      else match readlines s' with
           | [] => [[c]]
           | l :: ls => (c :: l) :: ls
           end
  end.

(** ** class Quotes *)

Module Quotes.

(** [quotes]: the in-memory list; [quotesfd]: the content of the file
    behind the descriptor opened with mode ['a+'] (every write goes to
    its end; ["\n"] is written as it is). *)
Record t := mk { quotes : list str; quotesfd : str }.

Definition _read_quotes (self : t) : t :=
  mk (map (rstrip [LF; CR]) (readlines (universal_newlines (quotesfd self))))
     (quotesfd self).

(** [file] is what [paths.quotes] holds when the bot starts (empty when
    the file did not exist). *)
Definition __init__ (file : str) : t := _read_quotes (mk [] file).

Definition add (self : t) (quote : str) : result unit * t :=
  if bool_decide (quote = []) || str_in [LF] quote then
    (Raise ValueError, self)
  else
    (Return tt, mk (quotes self ++ [quote]) (quotesfd self ++ quote ++ [LF])).

Definition __len__ (self : t) : Z := Z.of_nat (length (quotes self)).

(** [self.quotes[key]] for an integer key, with Python's list indexing. *)
Definition __getitem__ (self : t) (key : Z) : result str :=
  let n := Z.of_nat (length (quotes self)) in
  let i := if key <? 0 then key + n else key in
  if (i <? 0) || (n <=? i) then Raise IndexError
  else match quotes self !! Z.to_nat i with
       | Some q => Return q
       | None => Raise IndexError
       end.

(** [x in self]: no [__contains__], so membership walks [__iter__]. *)
Definition __iter__ (self : t) : list str := quotes self.
Definition contains (self : t) (x : str) : bool :=
  bool_decide (x ∈ __iter__ self).

End Quotes.

(** ** The bot's state *)

Record Event := mkEvent { source : str; target : str; message : str }.

(** What the bot hands to the transport. *)
Inductive IrcCommand : Type :=
| PRIVMSG (to line : str)       (* send_message(target, line) *)
| TOPIC (chan trailing : str)   (* execute('TOPIC', target, trailing=topic) *)
| NICK (name : str).            (* set_nickname(name) *)

(** [chatlog]: the lines the [Logger] printed and wrote to the chat log;
    [sent]: the commands issued so far, oldest first; [rng], [rng_pos]:
    the stream of draws behind [random] and how many were taken. *)
Record Bot := mkBot {
  nickname : str;
  trigger : str;
  topics : gmap str str;
  quotes : Quotes.t;
  chatlog : list str;
  sent : list IrcCommand;
  rng : nat -> nat;
  rng_pos : nat
}.

Definition set_topics (bot : Bot) (m : gmap str str) : Bot :=
  mkBot (nickname bot) (trigger bot) m (quotes bot) (chatlog bot) (sent bot)
        (rng bot) (rng_pos bot).
Definition set_quotes (bot : Bot) (q : Quotes.t) : Bot :=
  mkBot (nickname bot) (trigger bot) (topics bot) q (chatlog bot) (sent bot)
        (rng bot) (rng_pos bot).
Definition set_chatlog (bot : Bot) (l : list str) : Bot :=
  mkBot (nickname bot) (trigger bot) (topics bot) (quotes bot) l (sent bot)
        (rng bot) (rng_pos bot).
Definition set_sent (bot : Bot) (l : list IrcCommand) : Bot :=
  mkBot (nickname bot) (trigger bot) (topics bot) (quotes bot) (chatlog bot) l
        (rng bot) (rng_pos bot).
Definition set_rng_pos (bot : Bot) (p : nat) : Bot :=
  mkBot (nickname bot) (trigger bot) (topics bot) (quotes bot) (chatlog bot)
        (sent bot) (rng bot) p.

(** [random.choice(bot.quotes)]: [seq[randbelow(len(seq))]], the index
    being the next draw reduced below the length. *)
Definition random_choice (bot : Bot) : result str * Bot :=
  let n := length (Quotes.quotes (quotes bot)) in
  let i := (rng bot (rng_pos bot) mod n)%nat in
  (Quotes.__getitem__ (quotes bot) (Z.of_nat i),
   set_rng_pos bot (S (rng_pos bot))).

(** ** class Logger *)

Module Logger.

Definition _chatlogline (bot : Bot) (line : str) : Bot :=
  set_chatlog bot (chatlog bot ++ [line]).

(** ["<{0}> {1}".format(a, b)] *)
Definition fmt (a b : str) : str := py "<" ++ a ++ py "> " ++ b.

Definition on_message (bot : Bot) (event : Event) : Bot :=
  _chatlogline bot (fmt (source event) (message event)).

Definition on_bot_message (bot : Bot) (target line : str) : Bot :=
  _chatlogline bot (fmt (nickname bot) line).

Definition error (bot : Bot) (msg : str) : Bot :=
  _chatlogline bot (py "Error: " ++ msg).

Definition on_initial_topic (bot : Bot) (target topic : str) : Bot :=
  _chatlogline bot (py "Topic in " ++ target ++ py " is: " ++ topic).

Definition on_change_topic (bot : Bot) (changer target topic : str) : Bot :=
  _chatlogline bot
    (changer ++ py " changed topic in " ++ target ++ py " to: " ++ topic).

End Logger.

(** ** class Eggy: state, output and the dispatcher *)

(** A message handler [fn(bot, event)]: what it returns or raises, and the
    state it leaves. *)
Definition handler_fn : Type := Bot -> Event -> result bool * Bot.

(** One invocation made by the dispatcher: which handler, on which state,
    with which outcome. *)
Record Call := mkCall {
  who : str;
  before : Bot;
  outcome : result bool;
  after : Bot
}.

Module Eggy.

(** The state [__init__] builds; [file] is the content of the quotes
    file and [draws] the random stream. *)
Definition __init__ (file : str) (draws : nat -> nat) : Bot :=
  mkBot (py "ravpython") (py "eggpy") ∅ (Quotes.__init__ file) [] []
        draws 0.

(** [handler] is [str(handler)], the identity the dispatcher logs. *)
Definition add_message_handler (message_handlers : list (str * handler_fn))
    (handler : str) (fn : handler_fn) : list (str * handler_fn) :=
  message_handlers ++ [(handler, fn)].

Definition say (bot : Bot) (target line : str) : Bot :=
  Logger.on_bot_message (set_sent bot (sent bot ++ [PRIVMSG target line]))
    target line.

Definition respond (bot : Bot) (event : Event) (response : str) : Bot :=
  say bot (target event) response.

Definition change_topic (bot : Bot) (target topic : str) : Bot :=
  set_sent bot (sent bot ++ [TOPIC target topic]).

Definition set_nickname (bot : Bot) (name : str) : Bot :=
  set_sent bot (sent bot ++ [NICK name]).

Definition topic_changed (bot : Bot) (target topic : str) : Bot :=
  set_topics bot (<[target := topic]> (topics bot)).

(** What the two error lines of the [except] branch leave. *)
Definition log_exception (bot : Bot) (handler : str) (err : Exception) : Bot :=
  Logger.error
    (Logger.error bot
       (py "Handler " ++ handler ++ py " threw exception " ++ type_str err))
    (exc_str err).

(** The loop of [on_message], returning also the calls it made. *)
Fixpoint dispatch (message_handlers : list (str * handler_fn))
    (bot : Bot) (event : Event) : list Call * Bot :=
  match message_handlers with
  | [] => ([], bot)
  | (handler, fn) :: rest =>
      let '(r, bot1) := fn bot event in
      let call := mkCall handler bot r bot1 in
      match r with
      | Return true => ([call], bot1)
      | Return false =>
          let '(calls, bot2) := dispatch rest bot1 event in
          (call :: calls, bot2)
      | Raise err =>
          let '(calls, bot2) :=
            dispatch rest (log_exception bot1 handler err) event in
          (call :: calls, bot2)
      end
  end.

Definition on_message (message_handlers : list (str * handler_fn))
    (bot : Bot) (event : Event) : Bot :=
  (dispatch message_handlers bot event).2.

End Eggy.

(** ** The message handlers *)

(** The longest prefix of [s] whose characters satisfy [p], and the rest
    (a greedy [p*]). *)
Fixpoint span (p : ascii -> bool) (s : str) : str * str :=
  match s with
  | [] => ([], [])
  | c :: s' =>
      if p c then let '(a, b) := span p s' in (c :: a, b) else ([], s)
  end.

(** [$] without [re.MULTILINE]: at the end of the text, or just before a
    newline that ends it. *)
Definition at_end (s : str) : bool :=
  bool_decide (s = []) || bool_decide (s = [LF]).

Module QuoteTrigger.

Definition on_message (bot : Bot) (event : Event) : result bool * Bot :=
  let msg := message event in
  if negb (str_in (trigger bot) msg) then (Return false, bot)
  else if Quotes.__len__ (quotes bot) =? 0 then
    (Return true, Eggy.respond bot event (py "No quotes"))
  else
    match random_choice bot with
    | (Return quote, bot1) => (Return true, Eggy.respond bot1 event quote)
    | (Raise err, bot1) => (Raise err, bot1)
    end.

End QuoteTrigger.

Module Command.

Definition on_message (_command : str)
    (on_command : Bot -> Event -> str -> result bool * Bot)
    (bot : Bot) (event : Event) : result bool * Bot :=
  let prefix := trigger bot ++ py " " ++ _command ++ py " " in
  let msg := message event in
  if negb (startswith msg prefix) then (Return false, bot)
  else on_command bot event (drop (length prefix) msg).

End Command.

Module AddQuote.

Definition on_command (bot : Bot) (event : Event) (new_quote : str)
    : result bool * Bot :=
  if Quotes.contains (quotes bot) new_quote then
    (Return true, Eggy.respond bot event (py "ooooold"))
  else
    match Quotes.add (quotes bot) new_quote with
    | (Raise err, q) => (Raise err, set_quotes bot q)
    | (Return _, q) =>
        let bot1 := set_quotes bot q in
        let n := Quotes.__len__ (quotes bot1) in
        let confirm :=
          (Return true,
           Eggy.respond bot1 event
             (py "Quote added. " ++ str_int n ++ py " quotes in database")) in
        match topics bot1 !! target event with
        | None => (Raise (KeyError (target event)), bot1)
        | Some topic =>
            if bool_decide (topic ≠ []) then
              let newtopic := re_sub (str_int (n - 1)) (str_int n) topic in
              if bool_decide (newtopic ≠ topic) then
                (Return true, Eggy.change_topic bot1 (target event) newtopic)
              else confirm
            else confirm
        end
    end.

Definition on_message : handler_fn := Command.on_message (py "add") on_command.

End AddQuote.

Module GetQuote.

(** Group 1 of the pattern: an optional minus sign, a digit [1-9], then any
    digits [\d].  Tried at the start of [s]: the text it takes (greedily) and
    what follows it.  (On the 8-bit characters of [str]; a message holding a
    decimal digit outside ASCII, which [\d] also matches, is not a [str].) *)
Definition trigger_group (s : str) : option (str * str) :=
  let '(sign, s1) :=
    match s with
    | c :: s' => if (c =? "-")%char then ([c], s') else ([], s)
    | [] => ([], s)
    end in
  match s1 with
  | d :: s2 =>
      if is_digit d && negb (d =? "0")%char then
        let '(ds, rest) := span is_digit s2 in Some (sign ++ d :: ds, rest)
      else None
  | [] => None
  end.

(** [self.trigger.match(msg)]: the pattern is [^#], the optional group 1
    and [$].  [None] when the pattern does not match, otherwise group 1
    ([None] when the optional group took no part).  Giving back digits or the sign never lets [$]
    succeed, so the greedy attempt and the attempt without the group are
    the only two to try. *)
Definition trigger_match (msg : str) : option (option str) :=
  match msg with
  | c :: s =>
      if (c =? "#")%char then
        match trigger_group s with
        | Some (query, rest) =>
            if at_end rest then Some (Some query)
            else if at_end s then Some None else None
        | None => if at_end s then Some None else None
        end
      else None
  | [] => None
  end.

(** The handler where [int(query)] always returns (no digit limit);
    [GetQuoteLimited.on_message] is the handler under a limit, and the two
    agree on every query within it. *)
Definition on_message (bot : Bot) (event : Event) : result bool * Bot :=
  let msg := message event in
  match trigger_match msg with
  | None => (Return false, bot)
  | Some None =>
      (Return true, Eggy.respond bot event (str_int (Quotes.__len__ (quotes bot))))
  | Some (Some query) =>
      let number := py_int query in
      let number :=
        if number <? 0 then number + (Quotes.__len__ (quotes bot) + 1)
        else number in
      if (number >? Quotes.__len__ (quotes bot)) || (number <=? 0) then
        (Return false, bot)
      else
        match Quotes.__getitem__ (quotes bot) (number - 1) with
        | Return quote => (Return true, Eggy.respond bot event quote)
        | Raise err => (Raise err, bot)
        end
  end.

End GetQuote.

Module Rebirth.

Definition is_alnum (c : ascii) : bool :=
  (is_digit c || ((97 <=? ord c) && (ord c <=? 122))
   || ((65 <=? ord c) && (ord c <=? 90)))%nat.

(** [self.allowable.match(args)] for [^[0-9a-zA-Z]+$], as a truth value. *)
Definition allowable_match (args : str) : bool :=
  let '(name, rest) := span is_alnum args in
  negb (bool_decide (name = [])) && at_end rest.

Definition on_command (bot : Bot) (event : Event) (args : str)
    : result bool * Bot :=
  if negb (allowable_match args) then (Return false, bot)
  else (Return true, Eggy.set_nickname bot args).

Definition on_message : handler_fn :=
  Command.on_message (py "rebirth") on_command.

End Rebirth.

(** The registry [Eggy.__init__] builds: the modules register themselves
    in this order.  Each is paired with [str(handler)] (the object's
    address left out). *)
Definition message_handlers : list (str * handler_fn) :=
  let hs := [] in
  let hs := Eggy.add_message_handler hs (py "<__main__.AddQuote object>")
              AddQuote.on_message in
  let hs := Eggy.add_message_handler hs (py "<__main__.GetQuote object>")
              GetQuote.on_message in
  let hs := Eggy.add_message_handler hs (py "<__main__.Rebirth object>")
              Rebirth.on_message in
  Eggy.add_message_handler hs (py "<__main__.QuoteTrigger object>")
    QuoteTrigger.on_message.

(** [Eggy.on_message] on the registry of the running bot: what one inbound
    chat message sets off.  (The [Logger]'s own handler, which only writes
    the inbound line to the chat log, is not part of this pass.) *)
Definition receive (bot : Bot) (event : Event) : Bot :=
  Eggy.on_message message_handlers bot event.

(** ** Vocabulary of the statements *)

(** Re-reading the file, as [_read_quotes] does, gives the list in memory. *)
Definition mirrored (self : Quotes.t) : Prop :=
  Quotes.quotes (Quotes._read_quotes self) = Quotes.quotes self.

(** The file is empty or its last line is closed by a newline. *)
Definition line_terminated (f : str) : Prop :=
  f = [] \/ exists f0, f = f0 ++ [LF].

(** The calls one pass of the dispatcher makes, in the order it makes them. *)
Definition calls (message_handlers : list (str * handler_fn))
    (bot : Bot) (event : Event) : list Call :=
  (Eggy.dispatch message_handlers bot event).1.

(** The state the loop goes on with after a call: the state the handler
    left, with the two error lines added when it raised. *)
Definition carried (c : Call) : Bot :=
  match outcome c with
  | Raise err => Eggy.log_exception (after c) (who c) err
  | Return _ => after c
  end.

(** A handler that fails on every message. *)
Definition faulty : handler_fn := fun bot _ => (Raise ValueError, bot).

(** The position [GetQuote.on_message] computes from the number of the
    message: a negative number counts from the end. *)
Definition resolved (number count : Z) : Z :=
  if number <? 0 then number + (count + 1) else number.

(** A chat message [text] sent by [source] to [target]. *)
Definition says (source target text : str) : Event :=
  mkEvent source target text.

(** The bot after the user [alice] said [text] in the channel. *)
Definition hears (bot : Bot) (text : string) : Bot :=
  receive bot (says (py "alice") (py "#ravpython") (py text)).

(** ** Server events and the topic cache *)

Module Irc.

(** An event of the transport, as [on_any] and [on_reply] read it. *)
Record event := mk {
  command : str;
  source : str;
  target : str;
  params : list str
}.

End Irc.

(** [Eggy.on_any]: a [TOPIC] event is logged and cached.  [event.params[0]]
    is evaluated before the logger is called, so a missing parameter raises
    before anything is written. *)
Definition on_any (bot : Bot) (event : Irc.event) : result unit * Bot :=
  if bool_decide (Irc.command event = py "TOPIC") then
    match Irc.params event !! 0%nat with
    | None => (Raise IndexError, bot)
    | Some topic =>
        (Return tt,
         Eggy.topic_changed
           (Logger.on_change_topic bot (Irc.source event) (Irc.target event)
              topic)
           (Irc.target event) topic)
    end
  else (Return tt, bot).

(** [Eggy.on_reply]: the [RPL_TOPIC] reply carries the channel and its topic
    as its two parameters. *)
Definition on_reply (bot : Bot) (event : Irc.event) : result unit * Bot :=
  if bool_decide (Irc.command event = py "RPL_TOPIC") then
    match Irc.params event !! 0%nat with
    | None => (Raise IndexError, bot)
    | Some chan =>
        match Irc.params event !! 1%nat with
        | None => (Raise IndexError, bot)
        | Some topic =>
            (Return tt,
             Eggy.topic_changed (Logger.on_initial_topic bot chan topic)
               chan topic)
        end
    end
  else (Return tt, bot).

(** ** More vocabulary *)

(** Successive calls of [add], stopping at the first one that raises. *)
Fixpoint add_many (self : Quotes.t) (qs : list str) : result unit * Quotes.t :=
  match qs with
  | [] => (Return tt, self)
  | q :: qs' =>
      match Quotes.add self q with
      | (Return _, self') => add_many self' qs'
      | (Raise err, self') => (Raise err, self')
      end
  end.

(** A quotes file written line by line; a line ends with ["\n"], or with
    ["\r\n"] when its flag is set. *)
Definition file_of (lines : list (str * bool)) : str :=
  concat (map (fun l : str * bool => l.1 ++ (if l.2 then [CR; LF] else [LF]))
            lines).

(** A text [add] accepts. *)
Definition valid_quote (q : str) : Prop := q <> [] /\ LF ∉ q.

(** The bot after a sequence of inbound messages. *)
Definition run (bot : Bot) (events : list Event) : Bot :=
  fold_left receive events bot.

(** The chat-log line that goes with an outbound command: only replies
    are logged, under the bot's nickname. *)
Definition logged_as (nick : str) (c : IrcCommand) : list str :=
  match c with
  | PRIVMSG _ line => [Logger.fmt nick line]
  | _ => []
  end.

(** The command goes to the target of the message that caused it. *)
Definition addressed (event : Event) (c : IrcCommand) : Prop :=
  match c with
  | PRIVMSG to _ => to = target event
  | TOPIC chan _ => chan = target event
  | NICK _ => True
  end.

(** A line written by [Logger.error]. *)
Definition is_error (line : str) : Prop := startswith line (py "Error: ") = true.

(** A handler that issues exactly one command when it returns [True] and
    none otherwise, and leaves nickname and trigger word alone. *)
Definition well_behaved (fn : handler_fn) : Prop :=
  forall bot event,
    let r := (fn bot event).1 in
    let bot' := (fn bot event).2 in
    nickname bot' = nickname bot /\ trigger bot' = trigger bot /\
    ((r = Return true /\
      exists c, addressed event c /\ sent bot' = sent bot ++ [c] /\
                chatlog bot' = chatlog bot ++ logged_as (nickname bot) c) \/
     (r <> Return true /\ sent bot' = sent bot /\ chatlog bot' = chatlog bot)).

(** ** [int()] under the interpreter's digit limit *)

(** The number of digit characters of a text (a sign does not count). *)
Definition digit_count (s : str) : nat := length (List.filter is_digit s).

(** The [ValueError] of [int()] for a text with more digits than allowed. *)
Definition digit_limit_error (max_str_digits digits : nat) : Exception :=
  mkException (py "ValueError")
    (py "Exceeds the limit (" ++ str_int (Z.of_nat max_str_digits) ++
     py " digits) for integer string conversion: value has " ++
     str_int (Z.of_nat digits) ++
     py " digits; use sys.set_int_max_str_digits() to increase the limit").

(** [int(s)] on an interpreter whose limit is [max_str_digits]
    ([sys.get_int_max_str_digits()]: 4300 unless configured, and 0 when the
    limit is off or the interpreter has none). *)
Definition int_limited (max_str_digits : nat) (s : str) : result Z :=
  if (0 <? max_str_digits)%nat && (max_str_digits <? digit_count s)%nat
  then Raise (digit_limit_error max_str_digits (digit_count s))
  else Return (py_int s).

Module GetQuoteLimited.

(** [GetQuote.on_message] with the conversion [int(query)] as the
    interpreter performs it: an exception of [int()] leaves the handler
    before the range check. *)
Definition on_message (max_str_digits : nat) (bot : Bot) (event : Event)
    : result bool * Bot :=
  let msg := message event in
  match GetQuote.trigger_match msg with
  | None => (Return false, bot)
  | Some None =>
      (Return true, Eggy.respond bot event (str_int (Quotes.__len__ (quotes bot))))
  | Some (Some query) =>
      match int_limited max_str_digits query with
      | Raise err => (Raise err, bot)
      | Return number =>
          let number :=
            if number <? 0 then number + (Quotes.__len__ (quotes bot) + 1)
            else number in
          if (number >? Quotes.__len__ (quotes bot)) || (number <=? 0) then
            (Return false, bot)
          else
            match Quotes.__getitem__ (quotes bot) (number - 1) with
            | Return quote => (Return true, Eggy.respond bot event quote)
            | Raise err => (Raise err, bot)
            end
      end
  end.

End GetQuoteLimited.

(** The registry and the pass of [Eggy.on_message] on such an interpreter. *)
Definition message_handlers_limited (max_str_digits : nat)
    : list (str * handler_fn) :=
  let hs := [] in
  let hs := Eggy.add_message_handler hs (py "<__main__.AddQuote object>")
              AddQuote.on_message in
  let hs := Eggy.add_message_handler hs (py "<__main__.GetQuote object>")
              (GetQuoteLimited.on_message max_str_digits) in
  let hs := Eggy.add_message_handler hs (py "<__main__.Rebirth object>")
              Rebirth.on_message in
  Eggy.add_message_handler hs (py "<__main__.QuoteTrigger object>")
    QuoteTrigger.on_message.

Definition receive_limited (max_str_digits : nat) (bot : Bot) (event : Event)
    : Bot :=
  Eggy.on_message (message_handlers_limited max_str_digits) bot event.

(** * Properties *)

(** ** Strings *)

Lemma startswith_spec (s p : str) :
  startswith s p = true <-> exists t, s = p ++ t.
Proof.
  revert s. induction p as [|a p IH]; intros s; simpl.
  - split; [intros _; exists s; reflexivity | reflexivity].
  - destruct s as [|c s]; simpl.
    + split; [discriminate | intros [t Ht]; discriminate].
    + rewrite andb_true_iff, Ascii.eqb_eq, IH. split.
      * intros [-> [t ->]]. exists t. reflexivity.
      * intros [t Ht]. injection Ht as -> ->. split; [reflexivity | exists t; reflexivity].
Qed.

Lemma startswith_app (p t : str) : startswith (p ++ t) p = true.
Proof. apply startswith_spec. exists t. reflexivity. Qed.

Lemma str_in_cons (sub s : str) (c : ascii) :
  str_in sub (c :: s) = startswith (c :: s) sub || str_in sub s.
Proof. reflexivity. Qed.

Lemma str_in_spec (sub s : str) :
  str_in sub s = true <-> exists a b, s = a ++ sub ++ b.
Proof.
  induction s as [|c s IH].
  - simpl. rewrite orb_false_r, startswith_spec. split.
    + intros [t Ht]. exists [], t. exact Ht.
    + intros [a [b Hab]]. symmetry in Hab.
      apply app_eq_nil in Hab as [-> Hab]. apply app_eq_nil in Hab as [-> ->].
      exists []. reflexivity.
  - rewrite str_in_cons, orb_true_iff, startswith_spec, IH. split.
    + intros [[t Ht] | [a [b Hab]]].
      * exists [], t. exact Ht.
      * exists (c :: a), b. rewrite Hab. reflexivity.
    + intros [a [b Hab]]. destruct a as [|c' a].
      * left. exists b. exact Hab.
      * right. injection Hab as -> ->. exists a, b. reflexivity.
Qed.

Lemma str_in_app (sub a b : str) : str_in sub (a ++ sub ++ b) = true.
Proof. apply str_in_spec. exists a, b. reflexivity. Qed.

Lemma str_in_char (c : ascii) (s : str) : str_in [c] s = true <-> c ∈ s.
Proof.
  rewrite str_in_spec. split.
  - intros [a [b ->]]. apply elem_of_app. right. apply list_elem_of_here.
  - intros H. apply list_elem_of_split in H as [a [b ->]]. exists a, b. reflexivity.
Qed.

(** ** Decimal numerals *)

Lemma ord_chr (n : nat) : (n < 256)%nat -> ord (chr n) = n.
Proof. apply nat_ascii_embedding. Qed.

Lemma digit_char_ord (d : Z) :
  0 <= d <= 9 -> ord (digit_char d) = (48 + Z.to_nat d)%nat.
Proof. intros H. unfold digit_char. apply ord_chr. lia. Qed.

Lemma digit_val_char (d : Z) : 0 <= d <= 9 -> digit_val (digit_char d) = d.
Proof. intros H. unfold digit_val. rewrite digit_char_ord by exact H. lia. Qed.

Lemma is_digit_char (d : Z) : 0 <= d <= 9 -> is_digit (digit_char d) = true.
Proof.
  intros H. unfold is_digit. rewrite digit_char_ord by exact H.
  apply andb_true_iff. split; apply Nat.leb_le; lia.
Qed.

Lemma digit_char_zero (d : Z) :
  0 <= d <= 9 -> digit_char d = "0"%char -> d = 0.
Proof.
  intros H E. apply (f_equal digit_val) in E.
  rewrite digit_val_char in E by exact H. exact E.
Qed.

Lemma digit_val_range (c : ascii) : is_digit c = true -> 0 <= digit_val c <= 9.
Proof.
  unfold is_digit, digit_val. intros H. apply andb_true_iff in H as [H1 H2].
  apply Nat.leb_le in H1, H2. lia.
Qed.

Lemma digits_aux_app (fuel : nat) (n : Z) (acc : str) :
  digits_aux fuel n acc = digits_aux fuel n [] ++ acc.
Proof.
  revert n acc. induction fuel as [|fuel IH]; intros n acc; simpl.
  - reflexivity.
  - destruct (n / 10 =? 0).
    + reflexivity.
    + rewrite (IH _ (_ :: acc)), (IH _ [_]), <- app_assoc. reflexivity.
Qed.

Lemma digits_aux_step (fuel : nat) (n : Z) :
  digits_aux (S fuel) n [] =
  if n / 10 =? 0 then [digit_char (n mod 10)]
  else digits_aux fuel (n / 10) [] ++ [digit_char (n mod 10)].
Proof. simpl. destruct (n / 10 =? 0); [reflexivity | apply digits_aux_app]. Qed.

Lemma fold_digits_shift (t : str) (a : Z) :
  fold_left (fun acc c => acc * 10 + digit_val c) t a =
  a * 10 ^ Z.of_nat (length t) + digits_value t.
Proof.
  unfold digits_value. revert a. induction t as [|c t IH]; intros a.
  - simpl. lia.
  - cbn [fold_left length]. rewrite (IH (a * 10 + _)), (IH (0 * 10 + _)).
    rewrite Nat2Z.inj_succ, Z.pow_succ_r by lia. lia.
Qed.

Lemma digits_value_app (s t : str) :
  digits_value (s ++ t) =
  digits_value s * 10 ^ Z.of_nat (length t) + digits_value t.
Proof. unfold digits_value at 1. rewrite fold_left_app. apply fold_digits_shift. Qed.

Lemma digits_value_nonneg (s : str) : 0 <= digits_value s.
Proof.
  induction s as [|c s IH] using rev_ind.
  - unfold digits_value. simpl. lia.
  - rewrite digits_value_app. unfold digits_value at 2. simpl.
    unfold digit_val. lia.
Qed.

Lemma digits_aux_value (fuel : nat) (n : Z) :
  0 <= n <= Z.of_nat fuel -> digits_value (digits_aux (S fuel) n []) = n.
Proof.
  revert n. induction fuel as [|fuel IH]; intros n Hn; rewrite digits_aux_step.
  - assert (n = 0) as -> by lia. reflexivity.
  - pose proof (Z.mod_pos_bound n 10 ltac:(lia)) as Hm.
    pose proof (Z.div_mod n 10 ltac:(lia)) as Hd.
    destruct (Z.eqb_spec (n / 10) 0) as [E|E].
    + unfold digits_value. simpl. rewrite digit_val_char by lia. lia.
    + rewrite digits_value_app, IH by lia.
      unfold digits_value at 1. simpl. rewrite digit_val_char by lia. lia.
Qed.

Lemma digits_value_digits (n : Z) : 0 <= n -> digits_value (digits n) = n.
Proof.
  intros Hn. unfold digits. destruct (Z.to_nat n) as [|k] eqn:E.
  - assert (n = 0) as -> by lia. reflexivity.
  - apply digits_aux_value. lia.
Qed.

Lemma digits_aux_all (fuel : nat) (n : Z) :
  0 <= n -> Forall (fun c => is_digit c = true) (digits_aux (S fuel) n []).
Proof.
  revert n. induction fuel as [|fuel IH]; intros n Hn; rewrite digits_aux_step;
    pose proof (Z.mod_pos_bound n 10 ltac:(lia)) as Hm;
    destruct (n / 10 =? 0).
  - constructor; [apply is_digit_char; lia | constructor].
  - constructor; [apply is_digit_char; lia | constructor].
  - constructor; [apply is_digit_char; lia | constructor].
  - apply Forall_app. split.
    + apply IH. apply Z.div_pos; lia.
    + constructor; [apply is_digit_char; lia | constructor].
Qed.

Lemma digits_all (n : Z) :
  0 <= n -> Forall (fun c => is_digit c = true) (digits n).
Proof. intros H. apply digits_aux_all. exact H. Qed.

Lemma digits_aux_head (fuel : nat) (n : Z) :
  0 < n <= Z.of_nat fuel ->
  exists d ds, digits_aux (S fuel) n [] = d :: ds /\ is_digit d = true /\
               d <> "0"%char.
Proof.
  revert n. induction fuel as [|fuel IH]; intros n Hn; [lia|].
  rewrite digits_aux_step.
  pose proof (Z.mod_pos_bound n 10 ltac:(lia)) as Hm.
  pose proof (Z.div_mod n 10 ltac:(lia)) as Hd.
  destruct (Z.eqb_spec (n / 10) 0) as [E|E].
  - exists (digit_char (n mod 10)), []. split; [reflexivity|]. split.
    + apply is_digit_char. lia.
    + intros Hz. apply digit_char_zero in Hz; lia.
  - assert (0 <= n / 10) by (apply Z.div_pos; lia).
    destruct fuel as [|fuel'].
    + exfalso. lia.
    + destruct (IH (n / 10)) as [d [ds [E1 [E2 E3]]]]; [lia|].
      exists d, (ds ++ [digit_char (n mod 10)]). rewrite E1. auto.
Qed.

Lemma digits_head (n : Z) :
  0 < n ->
  exists d ds, digits n = d :: ds /\ is_digit d = true /\ d <> "0"%char.
Proof. intros H. apply digits_aux_head. lia. Qed.

Lemma digits_nonempty (n : Z) : digits n <> [].
Proof.
  unfold digits. simpl. destruct (n / 10 =? 0); [discriminate|].
  rewrite digits_aux_app. intros H. apply app_eq_nil in H as [_ H]. discriminate.
Qed.

Lemma str_int_nonneg (n : Z) : 0 <= n -> str_int n = digits n.
Proof. intros H. unfold str_int. destruct (Z.ltb_spec n 0); [lia | reflexivity]. Qed.

Lemma str_int_neg (n : Z) : n < 0 -> str_int n = "-"%char :: digits (- n).
Proof. intros H. unfold str_int. destruct (Z.ltb_spec n 0); [reflexivity | lia]. Qed.

Lemma digits_zero : digits 0 = py "0".
Proof. reflexivity. Qed.

Lemma is_digit_not_minus (c : ascii) : is_digit c = true -> (c =? "-")%char = false.
Proof.
  intros H. apply Ascii.eqb_neq. intros ->. discriminate H.
Qed.

(** [int(str(n)) == n] *)
Lemma py_int_str_int (n : Z) : py_int (str_int n) = n.
Proof.
  destruct (Z.lt_ge_cases n 0) as [Hn|Hn].
  - rewrite str_int_neg by exact Hn. simpl.
    rewrite digits_value_digits by lia. lia.
  - rewrite str_int_nonneg by exact Hn.
    pose proof (digits_all n Hn) as Hall.
    pose proof (digits_value_digits n Hn) as Hv.
    destruct (digits n) as [|d ds] eqn:E.
    + exfalso. exact (digits_nonempty n E).
    + simpl. apply Forall_cons in Hall as [Hd _].
      rewrite (is_digit_not_minus d Hd). exact Hv.
Qed.

Lemma pow10_ge (l : str) : l <> [] -> 10 <= 10 ^ Z.of_nat (length l).
Proof.
  intros H. destruct l as [|c l]; [congruence|].
  cbn [length]. rewrite Nat2Z.inj_succ, Z.pow_succ_r by lia.
  pose proof (Z.pow_pos_nonneg 10 (Z.of_nat (length l)) ltac:(lia) ltac:(lia)).
  lia.
Qed.

(** The numerals of two consecutive counts: neither starts with the other. *)
Lemma digits_succ_apart (n : Z) (x y : str) :
  0 <= n -> digits n ++ x <> digits (n + 1) ++ y.
Proof.
  intros Hn E.
  pose proof (digits_value_digits n Hn) as Vn.
  pose proof (digits_value_digits (n + 1) ltac:(lia)) as Vs.
  apply app_eq_app in E as [l [[E _]|[E _]]].
  - rewrite E, digits_value_app, Vs in Vn.
    pose proof (digits_value_nonneg l) as Hl.
    destruct l as [|c l].
    + change (digits_value []) with 0 in Vn. simpl in Vn. lia.
    + pose proof (pow10_ge (c :: l) ltac:(discriminate)) as Hp.
      revert Vn Hp Hl. generalize (10 ^ Z.of_nat (length (c :: l))).
      generalize (digits_value (c :: l)). intros v p Vn Hp Hl.
      assert ((n + 1) * 10 <= (n + 1) * p) by (apply Z.mul_le_mono_nonneg_l; lia).
      lia.
  - rewrite E, digits_value_app, Vn in Vs.
    pose proof (digits_value_nonneg l) as Hl.
    destruct l as [|c l].
    + change (digits_value []) with 0 in Vs. simpl in Vs. lia.
    + pose proof (pow10_ge (c :: l) ltac:(discriminate)) as Hp.
      assert (n = 0) as ->.
      { revert Vs Hp Hl. generalize (10 ^ Z.of_nat (length (c :: l))).
        generalize (digits_value (c :: l)). intros v p Vs Hp Hl.
        assert (n * 10 <= n * p) by (apply Z.mul_le_mono_nonneg_l; lia). lia. }
      destruct (digits_head (0 + 1) ltac:(lia)) as [d [ds [E1 [_ E3]]]].
      rewrite E1, digits_zero in E. injection E as E _. apply E3. exact E.
Qed.

(** ** Literal substitution *)

Lemma re_sub_absent (pat repl s : str) :
  str_in pat s = false -> re_sub pat repl s = s.
Proof.
  unfold re_sub. induction s as [|c s IH]; intros H.
  - reflexivity.
  - rewrite str_in_cons in H. apply orb_false_iff in H as [H1 H2].
    cbn [re_sub_from]. rewrite H1, (IH H2). reflexivity.
Qed.

Lemma re_sub_changes (pat repl s : str) :
  (forall x y, repl ++ x <> pat ++ y) ->
  str_in pat s = true -> re_sub pat repl s <> s.
Proof.
  intros Hapart. unfold re_sub. induction s as [|c s IH]; intros H.
  - simpl in H. rewrite orb_false_r in H. apply startswith_spec in H as [t Ht].
    symmetry in Ht. apply app_eq_nil in Ht as [-> _].
    exfalso. apply (Hapart [] repl). rewrite app_nil_r. reflexivity.
  - rewrite str_in_cons in H. cbn [re_sub_from].
    destruct (startswith (c :: s) pat) eqn:E.
    + apply startswith_spec in E as [t Ht]. rewrite Ht. apply Hapart.
    + simpl in H. intros Heq. injection Heq as Heq. exact (IH H Heq).
Qed.

Lemma re_sub_from_skip (pat repl x s : str) :
  re_sub_from pat repl (length x) (x ++ s) = re_sub pat repl s.
Proof.
  induction x as [|c x IH]; simpl.
  - unfold re_sub. destruct s; reflexivity.
  - exact IH.
Qed.

(** The leftmost occurrence is replaced, and the scan resumes after it. *)
Lemma re_sub_first (pat repl a b : str) :
  pat <> [] ->
  (forall a1 a2, a = a1 ++ a2 -> a2 <> [] ->
     startswith (a2 ++ pat ++ b) pat = false) ->
  re_sub pat repl (a ++ pat ++ b) = a ++ repl ++ re_sub pat repl b.
Proof.
  intros Hpat. induction a as [|c a IH]; intros Hfirst.
  - destruct pat as [|p pat]; [congruence|].
    unfold re_sub at 1. cbn [app re_sub_from].
    change (p :: pat ++ b) with ((p :: pat) ++ b).
    rewrite startswith_app. cbn [length].
    replace (S (length pat) - 1)%nat with (length pat) by lia.
    rewrite re_sub_from_skip. reflexivity.
  - unfold re_sub at 1. cbn [app re_sub_from].
    change (c :: a ++ pat ++ b) with ((c :: a) ++ pat ++ b).
    rewrite (Hfirst [] (c :: a) eq_refl ltac:(discriminate)).
    fold (re_sub pat repl (a ++ pat ++ b)). rewrite IH; [reflexivity|].
    intros a1 a2 -> Ha2. apply (Hfirst (c :: a1) a2); [reflexivity | exact Ha2].
Qed.

(** ** The quote store *)

Lemma add_invalid (self : Quotes.t) (s : str) :
  s = [] \/ LF ∈ s -> Quotes.add self s = (Raise ValueError, self).
Proof.
  intros H. unfold Quotes.add.
  destruct H as [-> | H].
  - reflexivity.
  - apply str_in_char in H. rewrite H, orb_true_r. reflexivity.
Qed.

Lemma add_valid (self : Quotes.t) (s : str) :
  s <> [] -> LF ∉ s ->
  Quotes.add self s =
  (Return tt,
   Quotes.mk (Quotes.quotes self ++ [s]) (Quotes.quotesfd self ++ s ++ [LF])).
Proof.
  intros H1 H2. unfold Quotes.add.
  rewrite bool_decide_eq_false_2 by exact H1.
  destruct (str_in [LF] s) eqn:E.
  - apply str_in_char in E. contradiction.
  - reflexivity.
Qed.

Lemma getitem_nth (self : Quotes.t) (i : nat) (q : str) :
  Quotes.quotes self !! i = Some q ->
  Quotes.__getitem__ self (Z.of_nat i) = Return q.
Proof.
  intros H. pose proof (lookup_lt_Some _ _ _ H) as Hlt.
  unfold Quotes.__getitem__.
  destruct (Z.ltb_spec (Z.of_nat i) 0); [lia|].
  destruct (Z.ltb_spec (Z.of_nat i) 0); [lia|].
  destruct (Z.leb_spec (Z.of_nat (length (Quotes.quotes self))) (Z.of_nat i));
    [lia|].
  simpl. rewrite Nat2Z.id, H. reflexivity.
Qed.

(** C3: for every string that is empty or contains a newline, [add] raises
    its [ValueError] (the spec's InvalidQuote) and the store is what it was:
    the count, the list in memory and the file are unchanged. *)
Theorem add_rejects_invalid (self : Quotes.t) (s : str) :
  s = [] \/ LF ∈ s ->
  Quotes.add self s = (Raise ValueError, self) /\
  Quotes.__len__ (Quotes.add self s).2 = Quotes.__len__ self /\
  Quotes.quotes (Quotes.add self s).2 = Quotes.quotes self /\
  Quotes.quotesfd (Quotes.add self s).2 = Quotes.quotesfd self.
Proof.
  intros H. rewrite (add_invalid self s H). repeat split.
Qed.

Lemma add_rejects_invalid_witness :
  Quotes.add (Quotes.__init__ (py "one" ++ [LF])) (py "a" ++ [LF] ++ py "b") =
    (Raise ValueError, Quotes.__init__ (py "one" ++ [LF])) /\
  Quotes.add (Quotes.__init__ (py "one" ++ [LF])) [] =
    (Raise ValueError, Quotes.__init__ (py "one" ++ [LF])).
Proof.
  split.
  - apply (add_rejects_invalid (Quotes.__init__ (py "one" ++ [LF]))
             (py "a" ++ [LF] ++ py "b")).
    right. apply list_elem_of_further, list_elem_of_here.
  - apply (add_rejects_invalid (Quotes.__init__ (py "one" ++ [LF])) []).
    left. reflexivity.
Defined.

(** C4: for every non-empty string without a newline (whether or not the
    store holds it already), [add] returns, the count has grown by exactly
    one, and the quote at the 1-based position [count()], which is index
    [count() - 1] of [__getitem__], is the string added. *)
Theorem add_appends (self : Quotes.t) (s : str) :
  s <> [] -> LF ∉ s ->
  exists self',
    Quotes.add self s = (Return tt, self') /\
    Quotes.__len__ self' = Quotes.__len__ self + 1 /\
    Quotes.__getitem__ self' (Quotes.__len__ self' - 1) = Return s.
Proof.
  intros H1 H2. eexists. split; [apply add_valid; assumption|].
  unfold Quotes.__len__. cbn [Quotes.quotes]. rewrite length_app. cbn [length].
  split; [lia|].
  replace (Z.of_nat (length (Quotes.quotes self) + 1) - 1)
    with (Z.of_nat (length (Quotes.quotes self))) by lia.
  apply getitem_nth. cbn [Quotes.quotes].
  rewrite lookup_app_r by lia. rewrite Nat.sub_diag. reflexivity.
Qed.

Lemma add_appends_witness :
  exists self',
    Quotes.add (Quotes.__init__ (py "one" ++ [LF])) (py "two") =
      (Return tt, self') /\
    Quotes.__len__ self' = Quotes.__len__ (Quotes.__init__ (py "one" ++ [LF])) + 1 /\
    Quotes.__getitem__ self' (Quotes.__len__ self' - 1) = Return (py "two").
Proof.
  apply (add_appends (Quotes.__init__ (py "one" ++ [LF])) (py "two")).
  - discriminate.
  - rewrite list_elem_of_In. simpl. intuition discriminate.
Defined.

(** *** Reading the file back *)

Lemma universal_newlines_cons (c : ascii) (s : str) :
  universal_newlines (c :: s) =
  if (c =? CR)%char then
    match s with
    | c' :: s'' =>
        if (c' =? LF)%char then LF :: universal_newlines s''
        else LF :: universal_newlines s
    | [] => [LF]
    end
  else c :: universal_newlines s.
Proof. reflexivity. Qed.

Lemma universal_newlines_id (s : str) : CR ∉ s -> universal_newlines s = s.
Proof.
  induction s as [|c s IH]; intros H; [reflexivity|].
  apply not_elem_of_cons in H as [Hc Hs].
  rewrite universal_newlines_cons.
  destruct (Ascii.eqb_spec c CR) as [->|_]; [congruence|].
  rewrite (IH Hs). reflexivity.
Qed.

Lemma universal_newlines_app_bounded (n : nat) (f g : str) :
  (length f <= n)%nat -> head g <> Some LF ->
  universal_newlines (f ++ g) = universal_newlines f ++ universal_newlines g.
Proof.
  revert f. induction n as [|n IH]; intros f Hlen Hg.
  - destruct f; [reflexivity | simpl in Hlen; lia].
  - destruct f as [|c f]; [reflexivity|]. simpl in Hlen.
    change ((c :: f) ++ g) with (c :: (f ++ g)).
    rewrite !universal_newlines_cons.
    destruct (c =? CR)%char.
    + destruct f as [|c' f].
      * cbn [app]. destruct g as [|c0 g]; [reflexivity|].
        destruct (Ascii.eqb_spec c0 LF) as [->|_].
        -- exfalso. apply Hg. reflexivity.
        -- reflexivity.
      * cbn [app]. destruct (c' =? LF)%char.
        -- simpl in Hlen. rewrite IH by (assumption || lia). reflexivity.
        -- change (c' :: f ++ g) with ((c' :: f) ++ g).
           rewrite IH by (assumption || lia). reflexivity.
    + rewrite IH by (assumption || lia). reflexivity.
Qed.

Lemma universal_newlines_app (f g : str) :
  head g <> Some LF ->
  universal_newlines (f ++ g) = universal_newlines f ++ universal_newlines g.
Proof. apply (universal_newlines_app_bounded (length f)). lia. Qed.

Lemma universal_newlines_terminated_bounded (n : nat) (f : str) :
  (length f <= n)%nat ->
  exists f0, universal_newlines (f ++ [LF]) = f0 ++ [LF].
Proof.
  revert f. induction n as [|n IH]; intros f Hlen.
  - destruct f; [exists []; reflexivity | simpl in Hlen; lia].
  - destruct f as [|c f]; [exists []; reflexivity|]. simpl in Hlen.
    change ((c :: f) ++ [LF]) with (c :: (f ++ [LF])).
    rewrite universal_newlines_cons.
    destruct (c =? CR)%char.
    + destruct f as [|c' f].
      * exists []. reflexivity.
      * cbn [app]. destruct (c' =? LF)%char.
        -- simpl in Hlen. destruct (IH f ltac:(lia)) as [f0 E].
           exists (LF :: f0). rewrite E. reflexivity.
        -- destruct (IH (c' :: f) ltac:(lia)) as [f0 E].
           exists (LF :: f0). cbn [app] in E. rewrite E. reflexivity.
    + destruct (IH f ltac:(lia)) as [f0 E].
      exists (c :: f0). rewrite E. reflexivity.
Qed.

Lemma universal_newlines_terminated (f : str) :
  line_terminated f -> line_terminated (universal_newlines f).
Proof.
  intros [-> | [f0 ->]].
  - left. reflexivity.
  - right. apply (universal_newlines_terminated_bounded (length f0)). lia.
Qed.

Lemma readlines_nonempty (s : str) : s <> [] -> readlines s <> [].
Proof.
  destruct s as [|c s]; [congruence|]. intros _. simpl.
  destruct (c =? LF)%char; [discriminate|].
  destruct (readlines s); discriminate.
Qed.

Lemma readlines_app (f g : str) :
  line_terminated f -> readlines (f ++ g) = readlines f ++ readlines g.
Proof.
  intros [-> | [f0 ->]]; [reflexivity|].
  induction f0 as [|c f0 IH].
  - reflexivity.
  - cbn [app readlines]. cbn [app] in IH. rewrite IH.
    destruct (c =? LF)%char; [reflexivity|].
    pose proof (readlines_nonempty (f0 ++ [LF])) as Hne.
    destruct (readlines (f0 ++ [LF])) as [|l ls].
    + exfalso. apply Hne; [|reflexivity]. destruct f0; discriminate.
    + reflexivity.
Qed.

Lemma readlines_line (q : str) : LF ∉ q -> readlines (q ++ [LF]) = [q ++ [LF]].
Proof.
  induction q as [|c q IH]; intros H; [reflexivity|].
  apply not_elem_of_cons in H as [Hc Hq].
  cbn [app readlines]. rewrite (IH Hq).
  destruct (Ascii.eqb_spec c LF) as [->|_]; [congruence | reflexivity].
Qed.

Lemma rstrip_cons (chars : str) (c : ascii) (s : str) :
  rstrip chars (c :: s) =
  match rstrip chars s with
  | [] => if bool_decide (c ∈ chars) then [] else [c]
  | r => c :: r
  end.
Proof. reflexivity. Qed.

Lemma rstrip_id (chars s : str) :
  Forall (fun c => c ∉ chars) s -> rstrip chars s = s.
Proof.
  induction 1 as [|c s Hc Hs IH]; [reflexivity|].
  rewrite rstrip_cons, IH. destruct s; [|reflexivity].
  rewrite bool_decide_eq_false_2 by exact Hc. reflexivity.
Qed.

Lemma rstrip_snoc (chars s : str) (c : ascii) :
  c ∈ chars -> rstrip chars (s ++ [c]) = rstrip chars s.
Proof.
  intros Hc. induction s as [|a s IH].
  - simpl. rewrite bool_decide_eq_true_2 by exact Hc. reflexivity.
  - cbn [app]. rewrite !rstrip_cons, IH. reflexivity.
Qed.

Lemma read_back_line (q : str) :
  LF ∉ q -> CR ∉ q -> rstrip [LF; CR] (q ++ [LF]) = q.
Proof.
  intros H1 H2. rewrite rstrip_snoc by apply list_elem_of_here.
  apply rstrip_id. apply Forall_forall. intros c Hc Hin.
  apply elem_of_cons in Hin as [-> | Hin]; [contradiction|].
  apply elem_of_cons in Hin as [-> | Hin]; [contradiction|].
  inversion Hin.
Qed.

(** For a quote without a carriage return, [add] keeps file and memory in
    step: the quote is written as one line at the end of the file, and
    re-reading the file gives the list in memory. *)
Lemma add_keeps_mirror (self : Quotes.t) (q : str) :
  mirrored self -> line_terminated (Quotes.quotesfd self) ->
  q <> [] -> LF ∉ q -> CR ∉ q ->
  exists self',
    Quotes.add self q = (Return tt, self') /\
    Quotes.quotesfd self' = Quotes.quotesfd self ++ q ++ [LF] /\
    line_terminated (Quotes.quotesfd self') /\
    mirrored self'.
Proof.
  intros Hm Ht Hq Hlf Hcr. eexists. split; [apply add_valid; assumption|].
  cbn [Quotes.quotesfd]. split; [reflexivity|]. split.
  - right. exists (Quotes.quotesfd self ++ q). rewrite <- app_assoc. reflexivity.
  - unfold mirrored, Quotes._read_quotes in *. cbn [Quotes.quotes Quotes.quotesfd] in *.
    rewrite universal_newlines_app.
    + rewrite readlines_app by (apply universal_newlines_terminated; exact Ht).
      rewrite map_app, Hm. f_equal.
      rewrite universal_newlines_id.
      * rewrite readlines_line by exact Hlf. cbn [map].
        rewrite read_back_line by assumption. reflexivity.
      * intros Hin. apply elem_of_app in Hin as [Hin | Hin]; [contradiction|].
        apply list_elem_of_singleton in Hin. discriminate.
    + destruct q as [|c q]; [congruence|]. cbn [app head].
      intros E. injection E as ->. apply Hlf. apply list_elem_of_here.
Qed.

(** C7, on the input where it fails: [add] accepts the quote ["a\r"] (it
    holds no ["\n"]), keeps it in memory and writes it as one line, and
    re-reading the file gives ["a"] instead; ["a\rb"] comes back as the two
    quotes ["a"] and ["b"]. *)
Theorem add_carriage_return_not_mirrored :
  let self := Quotes.__init__ [] in
  (exists self',
     Quotes.add self (py "a" ++ [CR]) = (Return tt, self') /\
     Quotes.quotes self' = [py "a" ++ [CR]] /\
     Quotes.quotesfd self' = py "a" ++ [CR; LF] /\
     Quotes.quotes (Quotes._read_quotes self') = [py "a"]) /\
  (exists self',
     Quotes.add self (py "a" ++ [CR] ++ py "b") = (Return tt, self') /\
     Quotes.quotes self' = [py "a" ++ [CR] ++ py "b"] /\
     Quotes.quotes (Quotes._read_quotes self') = [py "a"; py "b"]).
Proof.
  split; eexists; repeat split.
Qed.

Lemma init_mirrored (file : str) : mirrored (Quotes.__init__ file).
Proof. reflexivity. Qed.

(** ** The dispatcher *)

Lemma dispatch_cons (handler : str) (fn : handler_fn)
    (rest : list (str * handler_fn)) (bot : Bot) (event : Event) :
  Eggy.dispatch ((handler, fn) :: rest) bot event =
  let c := mkCall handler bot (fn bot event).1 (fn bot event).2 in
  match (fn bot event).1 with
  | Return true => ([c], (fn bot event).2)
  | _ => (c :: calls rest (carried c) event,
          Eggy.on_message rest (carried c) event)
  end.
Proof.
  unfold calls, Eggy.on_message, carried. cbn [Eggy.dispatch].
  destruct (fn bot event) as [[[|]|err] bot1]; cbn.
  - reflexivity.
  - destruct (Eggy.dispatch rest bot1 event). reflexivity.
  - destruct (Eggy.dispatch rest _ event). reflexivity.
Qed.

Lemma calls_cons (handler : str) (fn : handler_fn)
    (rest : list (str * handler_fn)) (bot : Bot) (event : Event) :
  calls ((handler, fn) :: rest) bot event =
  let c := mkCall handler bot (fn bot event).1 (fn bot event).2 in
  match (fn bot event).1 with
  | Return true => [c]
  | _ => c :: calls rest (carried c) event
  end.
Proof.
  unfold calls at 1. rewrite dispatch_cons. cbn zeta.
  destruct (fn bot event).1 as [[|]|]; reflexivity.
Qed.

Lemma on_message_cons (handler : str) (fn : handler_fn)
    (rest : list (str * handler_fn)) (bot : Bot) (event : Event) :
  Eggy.on_message ((handler, fn) :: rest) bot event =
  let c := mkCall handler bot (fn bot event).1 (fn bot event).2 in
  match (fn bot event).1 with
  | Return true => (fn bot event).2
  | _ => Eggy.on_message rest (carried c) event
  end.
Proof.
  unfold Eggy.on_message at 1. rewrite dispatch_cons. cbn zeta.
  destruct (fn bot event).1 as [[|]|]; reflexivity.
Qed.

(** Case analysis on the first call of a pass. *)
Ltac first_call fn bot event :=
  cbn zeta in *;
  let r := fresh "r" in let bot1 := fresh "bot1" in let E := fresh "Efn" in
  destruct (fn bot event) as [r bot1] eqn:E; cbn [fst snd] in *;
  destruct r as [[|]|?err].

(** The [i]-th call is the [i]-th registered handler, applied to the state
    recorded as [before]. *)
Lemma calls_are_handlers (hs : list (str * handler_fn)) (bot : Bot)
    (event : Event) (i : nat) (c : Call) :
  calls hs bot event !! i = Some c ->
  exists fn, hs !! i = Some (who c, fn) /\
             fn (before c) event = (outcome c, after c).
Proof.
  revert bot i. induction hs as [|[h fn] hs IH]; intros bot i H.
  - discriminate.
  - rewrite calls_cons in H.
    destruct i as [|i].
    + exists fn. first_call fn bot event; cbn in H; injection H as <-;
        split; first [reflexivity | exact Efn].
    + first_call fn bot event; cbn in H; [discriminate | |];
        apply IH in H as [fn' [E1 E2]]; exists fn'; split; assumption.
Qed.

Lemma calls_first (hs : list (str * handler_fn)) (bot : Bot) (event : Event)
    (c : Call) :
  calls hs bot event !! 0%nat = Some c -> before c = bot.
Proof.
  destruct hs as [|[h fn] hs]; [discriminate|].
  rewrite calls_cons. first_call fn bot event; cbn; intros [= <-]; reflexivity.
Qed.

Lemma calls_thread (hs : list (str * handler_fn)) (bot : Bot) (event : Event)
    (i : nat) (c c' : Call) :
  calls hs bot event !! i = Some c ->
  calls hs bot event !! S i = Some c' ->
  before c' = carried c.
Proof.
  revert bot i. induction hs as [|[h fn] hs IH]; intros bot i H H'.
  - discriminate.
  - rewrite calls_cons in H, H'.
    first_call fn bot event; cbn in H, H'; [discriminate | |];
      (destruct i as [|i];
       [ injection H as <-; exact (calls_first _ _ _ _ H')
       | exact (IH _ _ H H') ]).
Qed.

Lemma calls_stop (hs : list (str * handler_fn)) (bot : Bot) (event : Event)
    (i : nat) (c : Call) :
  calls hs bot event !! i = Some c ->
  outcome c = Return true -> length (calls hs bot event) = S i.
Proof.
  revert bot i. induction hs as [|[h fn] hs IH]; intros bot i H Ht.
  - discriminate.
  - rewrite calls_cons in H |- *.
    first_call fn bot event; cbn in H.
    + destruct i; [reflexivity | discriminate].
    + destruct i as [|i]; [injection H as <-; discriminate|].
      cbn [length]. f_equal. exact (IH _ _ H Ht).
    + destruct i as [|i]; [injection H as <-; discriminate|].
      cbn [length]. f_equal. exact (IH _ _ H Ht).
Qed.

Lemma calls_head (h : str) (fn : handler_fn) (hs : list (str * handler_fn))
    (bot : Bot) (event : Event) :
  is_Some (calls ((h, fn) :: hs) bot event !! 0%nat).
Proof.
  rewrite calls_cons. first_call fn bot event; cbn; eauto.
Qed.

Lemma calls_continue (hs : list (str * handler_fn)) (bot : Bot) (event : Event)
    (i : nat) (c : Call) :
  calls hs bot event !! i = Some c ->
  outcome c <> Return true ->
  is_Some (hs !! S i) -> is_Some (calls hs bot event !! S i).
Proof.
  revert bot i. induction hs as [|[h fn] hs IH]; intros bot i H Hn Hs.
  - discriminate.
  - rewrite calls_cons in H |- *. cbn in Hs.
    first_call fn bot event; cbn in H |- *.
    + destruct i; [injection H as <-; exfalso; apply Hn; reflexivity | discriminate].
    + destruct i as [|i]; [|exact (IH _ _ H Hn Hs)].
      destruct hs as [|[h' fn'] hs]; [destruct Hs; discriminate|].
      apply calls_head.
    + destruct i as [|i]; [|exact (IH _ _ H Hn Hs)].
      destruct hs as [|[h' fn'] hs]; [destruct Hs; discriminate|].
      apply calls_head.
Qed.

Lemma last_carried (c0 : Call) (cs : list Call) (bot : Bot) :
  match last (c0 :: cs) with Some c => carried c | None => bot end =
  match last cs with Some c => carried c | None => carried c0 end.
Proof.
  destruct cs as [|c1 cs]; [reflexivity|]. rewrite last_cons_cons.
  destruct (last (c1 :: cs)) eqn:E; [reflexivity|].
  apply last_None in E. discriminate.
Qed.

Lemma on_message_last (hs : list (str * handler_fn)) (bot : Bot)
    (event : Event) :
  Eggy.on_message hs bot event =
  match last (calls hs bot event) with
  | Some c => carried c
  | None => bot
  end.
Proof.
  revert bot. induction hs as [|[h fn] hs IH]; intros bot.
  - reflexivity.
  - rewrite on_message_cons, calls_cons.
    first_call fn bot event.
    + reflexivity.
    + rewrite last_carried, IH. reflexivity.
    + rewrite last_carried, IH. reflexivity.
Qed.

Lemma carried_raise (c : Call) (err : Exception) :
  outcome c = Raise err ->
  carried c = Eggy.log_exception (after c) (who c) err /\
  chatlog (carried c) =
    chatlog (after c) ++
    [py "Error: Handler " ++ who c ++ py " threw exception " ++ type_str err;
     py "Error: " ++ exc_str err] /\
  sent (carried c) = sent (after c) /\
  quotes (carried c) = quotes (after c) /\
  topics (carried c) = topics (after c).
Proof.
  intros E. unfold carried. rewrite E. repeat split.
  cbn. rewrite <- app_assoc. reflexivity.
Qed.

Lemma carried_return (c : Call) (b : bool) :
  outcome c = Return b -> carried c = after c.
Proof. intros E. unfold carried. rewrite E. reflexivity. Qed.

(** C2: one pass of the dispatcher over any registry and any message.
    The calls are the registered handlers' functions in registration order,
    each applied to the state the loop has reached; the pass ends at the
    first call that returns [True]; after a call that returns [False] or
    raises, the next registered handler is called; an exception is caught
    and logged with the handler's identity (two error lines, nothing else
    changes), so a raising handler never keeps a later one from running. *)
Theorem dispatch_in_order_isolating (hs : list (str * handler_fn))
    (bot : Bot) (event : Event) :
  let cs := calls hs bot event in
  (forall (i : nat) (c : Call), cs !! i = Some c ->
     (exists fn, hs !! i = Some (who c, fn) /\
                 fn (before c) event = (outcome c, after c)) /\
     (i = 0%nat -> before c = bot) /\
     (forall c', cs !! S i = Some c' -> before c' = carried c) /\
     (outcome c = Return true -> length cs = S i) /\
     (outcome c <> Return true -> is_Some (hs !! S i) -> is_Some (cs !! S i)) /\
     (forall err, outcome c = Raise err ->
        carried c = Eggy.log_exception (after c) (who c) err /\
        chatlog (carried c) =
          chatlog (after c) ++
          [py "Error: Handler " ++ who c ++ py " threw exception " ++
             type_str err;
           py "Error: " ++ exc_str err] /\
        sent (carried c) = sent (after c) /\
        quotes (carried c) = quotes (after c) /\
        topics (carried c) = topics (after c)) /\
     (forall b, outcome c = Return b -> carried c = after c)) /\
  (hs <> [] -> is_Some (cs !! 0%nat)) /\
  Eggy.on_message hs bot event =
    match last cs with Some c => carried c | None => bot end.
Proof.
  cbn zeta. split; [|split].
  - intros i c H. repeat split.
    + exact (calls_are_handlers _ _ _ _ _ H).
    + intros ->. exact (calls_first _ _ _ _ H).
    + intros c' H'. exact (calls_thread _ _ _ _ _ _ H H').
    + exact (calls_stop _ _ _ _ _ H).
    + exact (calls_continue _ _ _ _ _ H).
    + apply carried_raise; assumption.
    + apply carried_raise; assumption.
    + apply (carried_raise c err); assumption.
    + apply (carried_raise c err); assumption.
    + apply (carried_raise c err); assumption.
    + intros b. apply carried_return.
  - destruct hs as [|[h fn] hs]; [congruence|]. intros _. apply calls_head.
  - apply on_message_last.
Qed.

(** A handler that raises is logged and the next one is called, on the
    state with the two error lines. *)
Lemma faulty_handler_is_passed (handler next : str) (fn : handler_fn)
    (bot : Bot) (event : Event) :
  let logged := Eggy.log_exception bot handler ValueError in
  calls [(handler, faulty); (next, fn)] bot event =
    [mkCall handler bot (Raise ValueError) bot;
     mkCall next logged (fn logged event).1 (fn logged event).2] /\
  chatlog logged =
    chatlog bot ++
    [py "Error: Handler " ++ handler ++
       py " threw exception <class 'ValueError'>";
     py "Error: "].
Proof.
  cbn zeta. split.
  - rewrite calls_cons. cbn [faulty fst snd]. unfold carried. cbn [outcome after who].
    rewrite calls_cons. cbn zeta.
    destruct (fn _ event) as [[[|]|err] bot']; reflexivity.
  - cbn. rewrite <- app_assoc. reflexivity.
Qed.

(** ** GetQuote *)

Lemma span_all (p : ascii -> bool) (s : str) :
  Forall (fun c => p c = true) s -> span p s = (s, []).
Proof.
  induction 1 as [|c s Hc Hs IH]; [reflexivity|].
  simpl. rewrite Hc, IH. reflexivity.
Qed.

Lemma trigger_group_digits (n : Z) :
  0 < n -> GetQuote.trigger_group (digits n) = Some (digits n, []).
Proof.
  intros Hn. pose proof (digits_all n ltac:(lia)) as Hall.
  destruct (digits_head n Hn) as [d [ds [E [Hd Hz]]]].
  rewrite E in Hall |- *. apply Forall_cons in Hall as [_ Hds].
  unfold GetQuote.trigger_group.
  rewrite (is_digit_not_minus d Hd), Hd.
  apply Ascii.eqb_neq in Hz. rewrite Hz. cbn [negb andb].
  rewrite (span_all _ _ Hds). reflexivity.
Qed.

Lemma trigger_group_minus_digits (n : Z) :
  0 < n ->
  GetQuote.trigger_group ("-"%char :: digits n) =
  Some ("-"%char :: digits n, []).
Proof.
  intros Hn. pose proof (digits_all n ltac:(lia)) as Hall.
  destruct (digits_head n Hn) as [d [ds [E [Hd Hz]]]].
  rewrite E in Hall |- *. apply Forall_cons in Hall as [_ Hds].
  unfold GetQuote.trigger_group.
  rewrite (Ascii.eqb_refl "-"%char).
  rewrite Hd. apply Ascii.eqb_neq in Hz. rewrite Hz. cbn [negb andb].
  rewrite (span_all _ _ Hds). reflexivity.
Qed.

(** The pattern matches ["#"] followed by the numeral of a non-zero
    integer, and group 1 is the numeral. *)
Lemma trigger_match_number (k : Z) :
  k <> 0 ->
  GetQuote.trigger_match (py "#" ++ str_int k) = Some (Some (str_int k)).
Proof.
  intros Hk. change (py "#" ++ str_int k) with ("#"%char :: str_int k).
  unfold GetQuote.trigger_match. change (("#" =? "#")%char) with true. cbv iota.
  destruct (Z.lt_ge_cases k 0) as [H|H].
  - rewrite str_int_neg by exact H.
    rewrite trigger_group_minus_digits by lia. reflexivity.
  - rewrite str_int_nonneg by exact H.
    rewrite trigger_group_digits by lia. reflexivity.
Qed.


Lemma get_quote_number (bot : Bot) (event : Event) (k : Z) :
  message event = py "#" ++ str_int k -> k <> 0 ->
  GetQuote.on_message bot event =
  let number := resolved k (Quotes.__len__ (quotes bot)) in
  if (number >? Quotes.__len__ (quotes bot)) || (number <=? 0) then
    (Return false, bot)
  else
    match Quotes.__getitem__ (quotes bot) (number - 1) with
    | Return quote => (Return true, Eggy.respond bot event quote)
    | Raise err => (Raise err, bot)
    end.
Proof.
  intros Hm Hk. unfold GetQuote.on_message.
  rewrite Hm, (trigger_match_number k Hk), py_int_str_int. reflexivity.
Qed.

Lemma getitem_in_range (self : Quotes.t) (i : Z) :
  0 <= i < Quotes.__len__ self ->
  exists q, Quotes.quotes self !! Z.to_nat i = Some q /\
            Quotes.__getitem__ self i = Return q.
Proof.
  unfold Quotes.__len__. intros H.
  destruct (lookup_lt_is_Some_2 (Quotes.quotes self) (Z.to_nat i) ltac:(lia))
    as [q Hq].
  exists q. split; [exact Hq|].
  rewrite <- (Z2Nat.id i) by lia. apply getitem_nth. exact Hq.
Qed.

Lemma get_quote_declines_unchanged (bot : Bot) (event : Event) :
  (GetQuote.on_message bot event).1 = Return false ->
  GetQuote.on_message bot event = (Return false, bot).
Proof.
  unfold GetQuote.on_message.
  destruct (GetQuote.trigger_match (message event)) as [[query|]|];
    [|discriminate|reflexivity].
  destruct (_ || _); [reflexivity|].
  destruct (Quotes.__getitem__ _ _); discriminate.
Qed.

(** ** The registry of the running bot *)

Lemma receive_unfold (bot : Bot) (event : Event) :
  receive bot event =
  Eggy.on_message
    [(py "<__main__.AddQuote object>", AddQuote.on_message);
     (py "<__main__.GetQuote object>", GetQuote.on_message);
     (py "<__main__.Rebirth object>", Rebirth.on_message);
     (py "<__main__.QuoteTrigger object>", QuoteTrigger.on_message)]
    bot event.
Proof. reflexivity. Qed.

Lemma receive_add_quote (bot bot' : Bot) (event : Event) :
  AddQuote.on_message bot event = (Return true, bot') ->
  receive bot event = bot'.
Proof.
  intros H. rewrite receive_unfold, on_message_cons, H. reflexivity.
Qed.

Lemma receive_get_quote (bot bot' : Bot) (event : Event) :
  AddQuote.on_message bot event = (Return false, bot) ->
  GetQuote.on_message bot event = (Return true, bot') ->
  receive bot event = bot'.
Proof.
  intros H1 H2. rewrite receive_unfold, on_message_cons, H1.
  cbn [fst snd carried outcome after]. rewrite on_message_cons, H2. reflexivity.
Qed.

Lemma receive_declined (bot : Bot) (event : Event) :
  AddQuote.on_message bot event = (Return false, bot) ->
  GetQuote.on_message bot event = (Return false, bot) ->
  Rebirth.on_message bot event = (Return false, bot) ->
  receive bot event =
  match QuoteTrigger.on_message bot event with
  | (Return _, bot') => bot'
  | (Raise err, bot') =>
      Eggy.log_exception bot' (py "<__main__.QuoteTrigger object>") err
  end.
Proof.
  intros H1 H2 H3. rewrite receive_unfold, on_message_cons, H1.
  cbn [fst snd carried outcome after]. rewrite on_message_cons, H2.
  cbn [fst snd carried outcome after]. rewrite on_message_cons, H3.
  cbn [fst snd carried outcome after]. rewrite on_message_cons.
  destruct (QuoteTrigger.on_message bot event) as [[[|]|err] bot']; reflexivity.
Qed.

Lemma startswith_head_ne (c p : ascii) (s prefix : str) :
  c <> p -> startswith (c :: s) (p :: prefix) = false.
Proof.
  intros H. cbn [startswith]. apply Ascii.eqb_neq in H. rewrite H. reflexivity.
Qed.

Lemma command_declines_hash (command : str)
    (on_command : Bot -> Event -> str -> result bool * Bot)
    (bot : Bot) (event : Event) (s : str) :
  trigger bot = py "eggpy" -> message event = "#"%char :: s ->
  Command.on_message command on_command bot event = (Return false, bot).
Proof.
  intros Ht Hm. unfold Command.on_message. rewrite Ht, Hm.
  change (py "eggpy" ++ py " " ++ command ++ py " ")
    with ("e"%char :: py "ggpy " ++ command ++ py " ").
  rewrite startswith_head_ne by discriminate. reflexivity.
Qed.




(** C5: in a store of [c] quotes, for [1 <= n <= c], the messages ["#n"]
    and ["#(n - c - 1)"] are both handled by [GetQuote] with the same
    reply, the quote at position [n] (index [n - 1] of the list); on the
    running bot both messages lead to exactly that reply. *)
Theorem negative_index_equivalence (bot : Bot) (source target : str) (n : Z) :
  let c := Quotes.__len__ (quotes bot) in
  1 <= n <= c ->
  exists q,
    Quotes.quotes (quotes bot) !! Z.to_nat (n - 1) = Some q /\
    GetQuote.on_message bot (says source target (py "#" ++ str_int n)) =
      (Return true, Eggy.say bot target q) /\
    GetQuote.on_message bot (says source target (py "#" ++ str_int (n - c - 1))) =
      (Return true, Eggy.say bot target q) /\
    (trigger bot = py "eggpy" ->
     receive bot (says source target (py "#" ++ str_int n)) =
       Eggy.say bot target q /\
     receive bot (says source target (py "#" ++ str_int (n - c - 1))) =
       Eggy.say bot target q).
Proof.
  intros c Hn.
  destruct (getitem_in_range (quotes bot) (n - 1) ltac:(lia)) as [q [Hq Hg]].
  assert (forall k, k <> 0 -> resolved k c = n ->
            GetQuote.on_message bot (says source target (py "#" ++ str_int k)) =
            (Return true, Eggy.say bot target q)) as Hget.
  { intros k Hk Hr.
    rewrite (get_quote_number bot (says source target (py "#" ++ str_int k)) k
               eq_refl Hk). cbn zeta.
    fold c. rewrite Hr.
    destruct (Z.gtb_spec n c); [lia|]. destruct (Z.leb_spec n 0); [lia|].
    cbn [orb]. rewrite Hg. reflexivity. }
  assert (resolved n c = n) as R1.
  { unfold resolved. destruct (Z.ltb_spec n 0); lia. }
  assert (resolved (n - c - 1) c = n) as R2.
  { unfold resolved. destruct (Z.ltb_spec (n - c - 1) 0); lia. }
  exists q. split; [exact Hq|].
  split; [apply Hget; [lia | exact R1]|].
  split; [apply Hget; [lia | exact R2]|].
  intros Ht. split; apply receive_get_quote.
  - apply (command_declines_hash _ _ _ _ (str_int n) Ht). reflexivity.
  - apply Hget; [lia | exact R1].
  - apply (command_declines_hash _ _ _ _ (str_int (n - c - 1)) Ht). reflexivity.
  - apply Hget; [lia | exact R2].
Qed.

Lemma negative_index_equivalence_witness :
  let bot := Eggy.__init__ (py "one" ++ [LF] ++ py "two" ++ [LF] ++ py "three" ++ [LF])
               (fun _ => 0%nat) in
  exists q,
    Quotes.quotes (quotes bot) !! Z.to_nat (3 - 1) = Some q /\
    GetQuote.on_message bot (says (py "alice") (py "#ravpython") (py "#" ++ str_int 3)) =
      (Return true, Eggy.say bot (py "#ravpython") q) /\
    GetQuote.on_message bot
      (says (py "alice") (py "#ravpython") (py "#" ++ str_int (3 - 3 - 1))) =
      (Return true, Eggy.say bot (py "#ravpython") q) /\
    (trigger bot = py "eggpy" ->
     receive bot (says (py "alice") (py "#ravpython") (py "#" ++ str_int 3)) =
       Eggy.say bot (py "#ravpython") q /\
     receive bot
       (says (py "alice") (py "#ravpython") (py "#" ++ str_int (3 - 3 - 1))) =
       Eggy.say bot (py "#ravpython") q).
Proof.
  apply (negative_index_equivalence
           (Eggy.__init__ (py "one" ++ [LF] ++ py "two" ++ [LF] ++ py "three" ++ [LF])
              (fun _ => 0%nat))
           (py "alice") (py "#ravpython") 3).
  vm_compute. split; discriminate.
Defined.

(** ** AddQuote, Rebirth and QuoteTrigger *)

Lemma command_prefix (command : str)
    (on_command : Bot -> Event -> str -> result bool * Bot)
    (bot : Bot) (event : Event) (args : str) :
  message event = (trigger bot ++ py " " ++ command ++ py " ") ++ args ->
  Command.on_message command on_command bot event = on_command bot event args.
Proof.
  intros Hm. unfold Command.on_message. rewrite Hm, startswith_app.
  cbn [negb]. rewrite drop_app_length. reflexivity.
Qed.

Lemma add_quote_prefix (bot : Bot) (event : Event) (new_quote : str) :
  message event = trigger bot ++ py " add " ++ new_quote ->
  AddQuote.on_message bot event = AddQuote.on_command bot event new_quote.
Proof.
  intros Hm. apply command_prefix. rewrite Hm, <- !app_assoc. reflexivity.
Qed.

Lemma rebirth_prefix (bot : Bot) (event : Event) (args : str) :
  message event = trigger bot ++ py " rebirth " ++ args ->
  Rebirth.on_message bot event = Rebirth.on_command bot event args.
Proof.
  intros Hm. apply command_prefix. rewrite Hm, <- !app_assoc. reflexivity.
Qed.

Lemma contains_spec (self : Quotes.t) (x : str) :
  Quotes.contains self x = true <-> x ∈ Quotes.quotes self.
Proof. unfold Quotes.contains, Quotes.__iter__. apply bool_decide_eq_true. Qed.

Lemma add_quote_command_outcome (bot : Bot) (event : Event) (new_quote : str) :
  (AddQuote.on_command bot event new_quote).1 <> Return false.
Proof.
  unfold AddQuote.on_command.
  destruct (Quotes.contains _ _); [discriminate|].
  destruct (Quotes.add _ _) as [[[]|err] q]; [|discriminate].
  cbn zeta. destruct (topics _ !! _) as [topic|]; [|discriminate].
  repeat case_bool_decide; discriminate.
Qed.

Lemma add_quote_declines_unchanged (bot : Bot) (event : Event) :
  (AddQuote.on_message bot event).1 = Return false ->
  AddQuote.on_message bot event = (Return false, bot).
Proof.
  unfold AddQuote.on_message, Command.on_message.
  destruct (negb _); [reflexivity|].
  intros H. exfalso. exact (add_quote_command_outcome _ _ _ H).
Qed.

Lemma rebirth_declines_unchanged (bot : Bot) (event : Event) :
  (Rebirth.on_message bot event).1 = Return false ->
  Rebirth.on_message bot event = (Return false, bot).
Proof.
  unfold Rebirth.on_message, Command.on_message, Rebirth.on_command.
  destruct (negb _); [reflexivity|].
  destruct (negb _); [reflexivity | discriminate].
Qed.

Lemma random_choice_picks (bot : Bot) :
  Quotes.quotes (quotes bot) <> [] ->
  exists q, q ∈ Quotes.quotes (quotes bot) /\
            random_choice bot = (Return q, set_rng_pos bot (S (rng_pos bot))).
Proof.
  intros Hne. unfold random_choice.
  set (n := length (Quotes.quotes (quotes bot))).
  assert (n <> 0%nat) as Hn.
  { unfold n. intros E. apply nil_length_inv in E. contradiction. }
  pose proof (Nat.mod_upper_bound (rng bot (rng_pos bot)) n Hn) as Hlt.
  destruct (lookup_lt_is_Some_2 (Quotes.quotes (quotes bot)) _ Hlt) as [q Hq].
  exists q. split.
  - apply list_elem_of_lookup. eauto.
  - rewrite (getitem_nth _ _ _ Hq). reflexivity.
Qed.

(** Once the trigger word occurs in the message, [QuoteTrigger] answers:
    with ["No quotes"] on an empty store, with a stored quote otherwise. *)
Lemma quote_trigger_replies (bot : Bot) (event : Event) :
  str_in (trigger bot) (message event) = true ->
  exists reply bot',
    QuoteTrigger.on_message bot event =
      (Return true, Eggy.respond bot' event reply) /\
    (Quotes.quotes (quotes bot) = [] /\ reply = py "No quotes" /\ bot' = bot \/
     reply ∈ Quotes.quotes (quotes bot) /\
     bot' = set_rng_pos bot (S (rng_pos bot))).
Proof.
  intros Hin. unfold QuoteTrigger.on_message. rewrite Hin. cbn [negb].
  unfold Quotes.__len__.
  destruct (Z.eqb_spec (Z.of_nat (length (Quotes.quotes (quotes bot)))) 0) as [E|E].
  - exists (py "No quotes"), bot. split; [reflexivity|]. left.
    split; [|split; reflexivity]. apply nil_length_inv. lia.
  - destruct (random_choice_picks bot) as [q [Hq Hc]].
    { intros E'. rewrite E' in E. apply E. reflexivity. }
    rewrite Hc. exists q, (set_rng_pos bot (S (rng_pos bot))).
    split; [reflexivity|]. right. split; [exact Hq | reflexivity].
Qed.

(** C8: when the candidate quote is already in the store, [AddQuote]
    answers with the duplicate notice ["ooooold"] and reports handled; the
    store (memory and file) is what it was, so the count is unchanged; on
    the running bot the message ["<trigger> add <quote>"] leads to exactly
    that. *)
Theorem duplicate_add_is_noticed (bot : Bot) (event : Event) (new_quote : str) :
  new_quote ∈ Quotes.quotes (quotes bot) ->
  AddQuote.on_command bot event new_quote =
    (Return true, Eggy.respond bot event (py "ooooold")) /\
  quotes (Eggy.respond bot event (py "ooooold")) = quotes bot /\
  sent (Eggy.respond bot event (py "ooooold")) =
    sent bot ++ [PRIVMSG (target event) (py "ooooold")] /\
  (message event = trigger bot ++ py " add " ++ new_quote ->
   receive bot event = Eggy.respond bot event (py "ooooold") /\
   Quotes.__len__ (quotes (receive bot event)) = Quotes.__len__ (quotes bot)).
Proof.
  intros Hin.
  assert (AddQuote.on_command bot event new_quote =
          (Return true, Eggy.respond bot event (py "ooooold"))) as Hc.
  { unfold AddQuote.on_command. apply contains_spec in Hin. rewrite Hin.
    reflexivity. }
  split; [exact Hc|]. split; [reflexivity|]. split; [reflexivity|].
  intros Hm.
  assert (receive bot event = Eggy.respond bot event (py "ooooold")) as Hr.
  { apply receive_add_quote. rewrite (add_quote_prefix _ _ _ Hm). exact Hc. }
  split; [exact Hr|]. rewrite Hr. reflexivity.
Qed.

Lemma duplicate_add_is_noticed_witness :
  let bot := Eggy.__init__ (py "hello world" ++ [LF]) (fun _ => 0%nat) in
  let event := says (py "alice") (py "#ravpython") (py "eggpy add hello world") in
  AddQuote.on_command bot event (py "hello world") =
    (Return true, Eggy.respond bot event (py "ooooold")) /\
  quotes (Eggy.respond bot event (py "ooooold")) = quotes bot /\
  sent (Eggy.respond bot event (py "ooooold")) =
    sent bot ++ [PRIVMSG (target event) (py "ooooold")] /\
  (message event = trigger bot ++ py " add " ++ py "hello world" ->
   receive bot event = Eggy.respond bot event (py "ooooold") /\
   Quotes.__len__ (quotes (receive bot event)) = Quotes.__len__ (quotes bot)).
Proof.
  apply (duplicate_add_is_noticed
           (Eggy.__init__ (py "hello world" ++ [LF]) (fun _ => 0%nat))
           (says (py "alice") (py "#ravpython") (py "eggpy add hello world"))
           (py "hello world")).
  vm_compute. apply list_elem_of_here.
Defined.

(** C10: a message that contains the trigger word and that [AddQuote],
    [GetQuote] and [Rebirth] all decline (each returns [False]) is answered
    by [QuoteTrigger], the last handler of the registry: exactly one reply
    goes to the message's target, ["No quotes"] on an empty store and one
    of the stored quotes otherwise; nothing else is sent and nothing is
    logged as an error. *)
Theorem trigger_word_always_answered (bot : Bot) (event : Event) :
  str_in (trigger bot) (message event) = true ->
  (AddQuote.on_message bot event).1 = Return false ->
  (GetQuote.on_message bot event).1 = Return false ->
  (Rebirth.on_message bot event).1 = Return false ->
  exists reply,
    sent (receive bot event) = sent bot ++ [PRIVMSG (target event) reply] /\
    chatlog (receive bot event) =
      chatlog bot ++ [Logger.fmt (nickname bot) reply] /\
    quotes (receive bot event) = quotes bot /\
    (Quotes.quotes (quotes bot) = [] /\ reply = py "No quotes" \/
     reply ∈ Quotes.quotes (quotes bot)).
Proof.
  intros Hin Ha Hg Hr.
  apply add_quote_declines_unchanged in Ha.
  apply get_quote_declines_unchanged in Hg.
  apply rebirth_declines_unchanged in Hr.
  rewrite (receive_declined _ _ Ha Hg Hr).
  destruct (quote_trigger_replies bot event Hin) as [reply [bot' [E H]]].
  rewrite E. exists reply.
  destruct H as [[Hq [-> ->]] | [Hq ->]].
  - repeat split. left. split; [exact Hq | reflexivity].
  - repeat split. right. exact Hq.
Qed.

Lemma trigger_word_always_answered_witness :
  let bot := Eggy.__init__ (py "hello world" ++ [LF]) (fun _ => 0%nat) in
  let event := says (py "alice") (py "#ravpython") (py "eggpy rebirth bot2!") in
  exists reply,
    sent (receive bot event) = sent bot ++ [PRIVMSG (target event) reply] /\
    chatlog (receive bot event) =
      chatlog bot ++ [Logger.fmt (nickname bot) reply] /\
    quotes (receive bot event) = quotes bot /\
    (Quotes.quotes (quotes bot) = [] /\ reply = py "No quotes" \/
     reply ∈ Quotes.quotes (quotes bot)).
Proof.
  apply (trigger_word_always_answered
           (Eggy.__init__ (py "hello world" ++ [LF]) (fun _ => 0%nat))
           (says (py "alice") (py "#ravpython") (py "eggpy rebirth bot2!")));
    reflexivity.
Defined.

(** ** The trigger word is fixed *)

Lemma on_message_keeps_trigger (hs : list (str * handler_fn)) :
  Forall (fun h => forall bot event,
            trigger (h.2 bot event).2 = trigger bot) hs ->
  forall bot event, trigger (Eggy.on_message hs bot event) = trigger bot.
Proof.
  induction 1 as [|[h fn] hs Hfn Hhs IH]; intros bot event; [reflexivity|].
  rewrite on_message_cons. cbn zeta. cbn [snd] in Hfn.
  specialize (Hfn bot event).
  destruct (fn bot event) as [[[|]|err] bot1]; cbn [fst snd] in *.
  - exact Hfn.
  - rewrite IH. exact Hfn.
  - rewrite IH. exact Hfn.
Qed.

Lemma add_quote_keeps_trigger (bot : Bot) (event : Event) :
  trigger (AddQuote.on_message bot event).2 = trigger bot.
Proof.
  unfold AddQuote.on_message, Command.on_message, AddQuote.on_command.
  destruct (negb _); [reflexivity|].
  destruct (Quotes.contains _ _); [reflexivity|].
  unfold Quotes.add. destruct (_ || _); [reflexivity|]. cbn zeta.
  destruct (topics _ !! _) as [topic|]; [|reflexivity].
  repeat case_bool_decide; reflexivity.
Qed.

Lemma get_quote_keeps_trigger (bot : Bot) (event : Event) :
  trigger (GetQuote.on_message bot event).2 = trigger bot.
Proof.
  unfold GetQuote.on_message.
  destruct (GetQuote.trigger_match _) as [[query|]|]; [|reflexivity..].
  destruct (_ || _); [reflexivity|].
  destruct (Quotes.__getitem__ _ _); reflexivity.
Qed.

Lemma rebirth_keeps_trigger (bot : Bot) (event : Event) :
  trigger (Rebirth.on_message bot event).2 = trigger bot.
Proof.
  unfold Rebirth.on_message, Command.on_message, Rebirth.on_command.
  destruct (negb _); [reflexivity|]. destruct (negb _); reflexivity.
Qed.

Lemma quote_trigger_keeps_trigger (bot : Bot) (event : Event) :
  trigger (QuoteTrigger.on_message bot event).2 = trigger bot.
Proof.
  unfold QuoteTrigger.on_message, random_choice.
  destruct (negb _); [reflexivity|]. destruct (_ =? 0); [reflexivity|].
  destruct (Quotes.__getitem__ _ _); reflexivity.
Qed.

(** Whatever it receives, the running bot keeps the trigger word
    [__init__] gave it. *)
Lemma receive_keeps_trigger (bot : Bot) (event : Event) :
  trigger (receive bot event) = trigger bot.
Proof.
  rewrite receive_unfold. apply on_message_keeps_trigger.
  repeat constructor; cbn [snd]; intros.
  - apply add_quote_keeps_trigger.
  - apply get_quote_keeps_trigger.
  - apply rebirth_keeps_trigger.
  - apply quote_trigger_keeps_trigger.
Qed.

(** *** Adding a quote and the topic *)

Section FreshQuote.

Variables (bot : Bot) (event : Event) (new_quote : str).

(** The candidate passes [Quotes.add] and is not in the store yet. *)
Hypothesis quote_nonempty : new_quote <> [].
Hypothesis quote_one_line : LF ∉ new_quote.
Hypothesis quote_fresh : new_quote ∉ Quotes.quotes (quotes bot).

(** The count before the insertion, and the bot once the quote is in. *)
Let n : Z := Quotes.__len__ (quotes bot).
Let bot1 : Bot :=
  set_quotes bot
    (Quotes.mk (Quotes.quotes (quotes bot) ++ [new_quote])
               (Quotes.quotesfd (quotes bot) ++ new_quote ++ [LF])).

Lemma count_after_insertion : Quotes.__len__ (quotes bot1) = n + 1.
Proof.
  unfold bot1, n, Quotes.__len__. cbn [quotes set_quotes Quotes.quotes].
  rewrite length_app. cbn [length]. lia.
Qed.

Lemma add_quote_fresh :
  AddQuote.on_command bot event new_quote =
  match topics bot !! target event with
  | None => (Raise (KeyError (target event)), bot1)
  | Some topic =>
      if bool_decide (topic <> []) &&
         bool_decide (re_sub (str_int n) (str_int (n + 1)) topic <> topic)
      then (Return true,
            Eggy.change_topic bot1 (target event)
              (re_sub (str_int n) (str_int (n + 1)) topic))
      else (Return true,
            Eggy.respond bot1 event
              (py "Quote added. " ++ str_int (n + 1) ++
               py " quotes in database"))
  end.
Proof.
  unfold AddQuote.on_command.
  assert (Quotes.contains (quotes bot) new_quote = false) as ->.
  { apply not_true_is_false. rewrite contains_spec. exact quote_fresh. }
  rewrite (add_valid _ _ quote_nonempty quote_one_line). cbn zeta. fold bot1.
  rewrite count_after_insertion.
  replace (n + 1 - 1) with n by lia.
  change (topics bot1) with (topics bot).
  destruct (topics bot !! target event) as [topic|]; [|reflexivity].
  repeat case_bool_decide; reflexivity.
Qed.

(** The count before the insertion occurs in the cached topic: the topic is
    changed to the renumbered text (which differs from the old one), and no
    reply is sent. *)
Lemma add_quote_renumbers_topic (topic : str) :
  topics bot !! target event = Some topic ->
  str_in (str_int n) topic = true ->
  let newtopic := re_sub (str_int n) (str_int (n + 1)) topic in
  exists bot',
    AddQuote.on_command bot event new_quote = (Return true, bot') /\
    newtopic <> topic /\
    sent bot' = sent bot ++ [TOPIC (target event) newtopic] /\
    chatlog bot' = chatlog bot /\
    Quotes.__len__ (quotes bot') = n + 1.
Proof.
  intros Ht Hin newtopic.
  assert (0 <= n) as Hn by (unfold n, Quotes.__len__; lia).
  assert (newtopic <> topic) as Hne.
  { unfold newtopic. apply re_sub_changes; [|exact Hin].
    rewrite !str_int_nonneg by lia. intros x y E. symmetry in E.
    exact (digits_succ_apart n y x Hn E). }
  assert (topic <> []) as Hnil.
  { intros ->. rewrite str_int_nonneg in Hin by lia.
    pose proof (digits_nonempty n) as Hd.
    destruct (digits n); [congruence | discriminate Hin]. }
  rewrite add_quote_fresh, Ht. fold newtopic.
  rewrite !bool_decide_eq_true_2 by assumption. cbn [andb].
  exists (Eggy.change_topic bot1 (target event) newtopic).
  split; [reflexivity|]. split; [exact Hne|].
  split; [reflexivity|]. split; [reflexivity|]. apply count_after_insertion.
Qed.

(** A topic is cached and the count before the insertion does not occur
    in it: the confirmation with the new count is sent, the topic is left
    alone. *)
Lemma add_quote_confirms (topic : str) :
  topics bot !! target event = Some topic ->
  str_in (str_int n) topic = false ->
  exists bot',
    AddQuote.on_command bot event new_quote = (Return true, bot') /\
    sent bot' =
      sent bot ++
      [PRIVMSG (target event)
         (py "Quote added. " ++ str_int (n + 1) ++ py " quotes in database")] /\
    Quotes.__len__ (quotes bot') = n + 1 /\
    Quotes.quotes (quotes bot') = Quotes.quotes (quotes bot) ++ [new_quote] /\
    topics bot' = topics bot /\
    trigger bot' = trigger bot.
Proof.
  intros Ht Hin.
  rewrite add_quote_fresh, Ht, (re_sub_absent _ _ _ Hin).
  rewrite (bool_decide_eq_false_2 (topic <> topic)) by congruence.
  rewrite andb_false_r.
  eexists. split; [reflexivity|]. split; [reflexivity|].
  split; [apply count_after_insertion | repeat split].
Qed.

(** No topic is cached for the target: the quote is inserted, then the
    lookup [bot.topics[event.target]] raises [KeyError]; neither a reply
    nor a topic change is issued by the handler. *)
Lemma add_quote_no_topic_raises :
  topics bot !! target event = None ->
  exists bot',
    AddQuote.on_command bot event new_quote =
      (Raise (KeyError (target event)), bot') /\
    sent bot' = sent bot /\
    Quotes.quotes (quotes bot') = Quotes.quotes (quotes bot) ++ [new_quote].
Proof.
  intros Ht. rewrite add_quote_fresh, Ht. eexists. repeat split.
Qed.

End FreshQuote.

(** The spec's example: five quotes stored and the topic ["5 quotes"]
    cached; adding a sixth changes the topic to ["6 quotes"] and sends no
    reply.  With the topic ["random channel"] the confirmation is sent. *)
Lemma renumber_five_to_six (draws : nat -> nat) :
  let file := concat (map (fun q => py q ++ [LF]) ["a"; "b"; "c"; "d"; "e"]%string) in
  let chan := py "#ravpython" in
  let bot := Eggy.__init__ file draws in
  sent (hears (Eggy.topic_changed bot chan (py "5 quotes")) "eggpy add f") =
    [TOPIC chan (py "6 quotes")] /\
  sent (hears (Eggy.topic_changed bot chan (py "random channel")) "eggpy add f") =
    [PRIVMSG chan (py "Quote added. 6 quotes in database")] /\
  str_in (py "6") (py "Quote added. 6 quotes in database") = true.
Proof.
  cbn zeta. repeat split; vm_compute; reflexivity.
Qed.

(** C1, on the input where it fails: a fresh bot (empty store, no topic
    cached) receives ["eggpy add hello world"].  [AddQuote] inserts the
    quote and then raises [KeyError] at the topic lookup; the dispatcher
    logs the error and goes on, and [QuoteTrigger] answers with a stored
    quote.  No confirmation with the new count is sent. *)
Theorem add_quote_without_cached_topic (draws : nat -> nat) :
  let bot := Eggy.__init__ [] draws in
  let event := says (py "alice") (py "#ravpython") (py "eggpy add hello world") in
  topics bot !! target event = None /\
  AddQuote.on_message bot event =
    (Raise (KeyError (py "#ravpython")),
     set_quotes bot (Quotes.mk [py "hello world"] (py "hello world" ++ [LF]))) /\
  sent (receive bot event) = [PRIVMSG (py "#ravpython") (py "hello world")] /\
  chatlog (receive bot event) =
    [py "Error: Handler <__main__.AddQuote object> threw exception <class 'KeyError'>";
     py "Error: '#ravpython'";
     py "<ravpython> hello world"].
Proof.
  cbn zeta. split; [reflexivity|]. split; [reflexivity|].
  split; vm_compute; reflexivity.
Qed.

(** ** The end-to-end scenario *)

(** C9, on the input where it fails: the scenario played on a fresh bot
    (empty store, no topic cached).  The reply to ["eggpy add hello world"]
    is the quote itself, sent by [QuoteTrigger] after [AddQuote] raised
    [KeyError]; it does not hold the count.  The rest goes as described:
    ["#"] gives ["1"], ["#1"] and ["eggpy"] give ["hello world"], and
    ["eggpy rebirth bot2!"] changes no name (it is answered with the quote). *)
Theorem scenario_on_fresh_bot (draws : nat -> nat) :
  let chan := py "#ravpython" in
  let bot0 := Eggy.__init__ [] draws in
  let bot1 := hears bot0 "eggpy add hello world" in
  let bot2 := hears bot1 "#" in
  let bot3 := hears bot2 "#1" in
  let bot4 := hears bot3 "eggpy" in
  let bot5 := hears bot4 "eggpy rebirth bot2!" in
  map (fun c => (who c, outcome c))
      (calls message_handlers bot0
         (says (py "alice") chan (py "eggpy add hello world"))) =
    [(py "<__main__.AddQuote object>", Raise (KeyError chan));
     (py "<__main__.GetQuote object>", Return false);
     (py "<__main__.Rebirth object>", Return false);
     (py "<__main__.QuoteTrigger object>", Return true)] /\
  sent bot1 = [PRIVMSG chan (py "hello world")] /\
  str_in (py "1") (py "hello world") = false /\
  sent bot2 = sent bot1 ++ [PRIVMSG chan (py "1")] /\
  sent bot3 = sent bot2 ++ [PRIVMSG chan (py "hello world")] /\
  sent bot4 = sent bot3 ++ [PRIVMSG chan (py "hello world")] /\
  sent bot5 = sent bot4 ++ [PRIVMSG chan (py "hello world")].
Proof.
  cbn zeta. repeat split; vm_compute; reflexivity.
Qed.

(** With a topic cached for the channel in which the count [0] does not
    occur, the scenario goes as described from its first step: the add is
    confirmed with the total [1] and [AddQuote] alone acts. *)
Lemma scenario_with_cached_topic (draws : nat -> nat) (topic : str) :
  str_in (py "0") topic = false ->
  let chan := py "#ravpython" in
  let bot0 := Eggy.topic_changed (Eggy.__init__ [] draws) chan topic in
  let bot1 := hears bot0 "eggpy add hello world" in
  let bot2 := hears bot1 "#" in
  let bot3 := hears bot2 "#1" in
  let bot4 := hears bot3 "eggpy" in
  let bot5 := hears bot4 "eggpy rebirth bot2!" in
  sent bot1 = [PRIVMSG chan (py "Quote added. 1 quotes in database")] /\
  sent bot2 = sent bot1 ++ [PRIVMSG chan (py "1")] /\
  sent bot3 = sent bot2 ++ [PRIVMSG chan (py "hello world")] /\
  sent bot4 = sent bot3 ++ [PRIVMSG chan (py "hello world")] /\
  sent bot5 = sent bot4 ++ [PRIVMSG chan (py "hello world")].
Proof.
  intros Hin chan bot0.
  set (event := says (py "alice") chan (py "eggpy add hello world")).
  assert (hears bot0 "eggpy add hello world" =
          Eggy.respond
            (set_quotes bot0 (Quotes.mk [py "hello world"] (py "hello world" ++ [LF])))
            event (py "Quote added. 1 quotes in database")) as E1.
  { apply (receive_add_quote bot0 _ event).
    rewrite (add_quote_prefix bot0 event (py "hello world") eq_refl).
    rewrite add_quote_fresh.
    - change (topics bot0 !! target event) with (Some topic).
      change (str_int (Quotes.__len__ (quotes bot0))) with (py "0").
      cbv beta iota.
      rewrite (re_sub_absent _ _ _ Hin).
      rewrite (bool_decide_eq_false_2 (topic <> topic)) by congruence.
      rewrite andb_false_r. reflexivity.
    - discriminate.
    - rewrite list_elem_of_In. simpl. intuition discriminate.
    - apply not_elem_of_nil. }
  cbn zeta. rewrite E1. repeat split; vm_compute; reflexivity.
Qed.

(** * Further properties *)

(** ** Loading the quotes file *)

Lemma universal_newlines_line (q rest : str) (crlf : bool) :
  CR ∉ q ->
  universal_newlines (q ++ (if crlf then [CR; LF] else [LF]) ++ rest) =
  q ++ LF :: universal_newlines rest.
Proof.
  induction q as [|c q IH]; intros H.
  - destruct crlf; reflexivity.
  - apply not_elem_of_cons in H as [Hc Hq].
    cbn [app]. rewrite universal_newlines_cons.
    destruct (Ascii.eqb_spec c CR) as [->|_]; [congruence|].
    rewrite (IH Hq). reflexivity.
Qed.

Lemma readlines_first_line (q rest : str) :
  LF ∉ q -> readlines (q ++ LF :: rest) = (q ++ [LF]) :: readlines rest.
Proof.
  intros H. change (q ++ LF :: rest) with (q ++ [LF] ++ rest).
  rewrite app_assoc, readlines_app.
  - rewrite (readlines_line q H). reflexivity.
  - right. exists q. reflexivity.
Qed.

Lemma read_file_of (lines : list (str * bool)) :
  Forall (fun l : str * bool => (LF ∉ l.1) /\ (CR ∉ l.1)) lines ->
  map (rstrip [LF; CR]) (readlines (universal_newlines (file_of lines))) =
  map fst lines.
Proof.
  induction 1 as [|[q crlf] lines [Hlf Hcr] _ IH]; [reflexivity|].
  unfold file_of in *. cbn [map concat fst snd] in *.
  rewrite <- app_assoc, universal_newlines_line by exact Hcr.
  rewrite readlines_first_line by exact Hlf. cbn [map].
  rewrite read_back_line by assumption. rewrite IH. reflexivity.
Qed.

(** X1: a file whose lines hold neither ["\n"] nor ["\r"], each closed by
    ["\n"] or by ["\r\n"], is loaded as exactly those lines, in order
    (blank lines included, as empty quotes). *)
Theorem load_lines (lines : list (str * bool)) :
  Forall (fun l : str * bool => (LF ∉ l.1) /\ (CR ∉ l.1)) lines ->
  Quotes.quotes (Quotes.__init__ (file_of lines)) = map fst lines /\
  Quotes.__len__ (Quotes.__init__ (file_of lines)) = Z.of_nat (length lines).
Proof.
  intros H. unfold Quotes.__len__, Quotes.__init__, Quotes._read_quotes.
  cbn [Quotes.quotes Quotes.quotesfd]. rewrite (read_file_of lines H).
  split; [reflexivity|]. rewrite length_map. reflexivity.
Qed.

Lemma load_lines_witness :
  Quotes.quotes
    (Quotes.__init__ (file_of [(py "one", false); ([], true); (py "two", true)])) =
    map fst [(py "one", false); ([], true); (py "two", true)] /\
  Quotes.__len__
    (Quotes.__init__ (file_of [(py "one", false); ([], true); (py "two", true)])) =
    Z.of_nat (length [(py "one", false); (([] : str), true); (py "two", true)]).
Proof.
  apply (load_lines [(py "one", false); ([], true); (py "two", true)]).
  repeat constructor; cbn [fst]; rewrite list_elem_of_In; simpl;
    intuition discriminate.
Defined.

Lemma universal_newlines_no_cr_bounded (n : nat) (s : str) :
  (length s <= n)%nat -> CR ∉ universal_newlines s.
Proof.
  revert s. induction n as [|n IH]; intros s Hlen.
  - destruct s; [apply not_elem_of_nil | simpl in Hlen; lia].
  - destruct s as [|c s]; [apply not_elem_of_nil|]. simpl in Hlen.
    rewrite universal_newlines_cons.
    destruct (Ascii.eqb_spec c CR) as [->|Hc].
    + destruct s as [|c' s].
      * intros H. apply list_elem_of_singleton in H. discriminate.
      * destruct (c' =? LF)%char; apply not_elem_of_cons; split;
          try discriminate; apply IH; simpl in *; lia.
    + apply not_elem_of_cons. split; [congruence | apply IH; lia].
Qed.

Lemma universal_newlines_no_cr (s : str) : CR ∉ universal_newlines s.
Proof. apply (universal_newlines_no_cr_bounded (length s)). lia. Qed.

Lemma readlines_shape (s l : str) :
  l ∈ readlines s ->
  exists body, (l = body \/ l = body ++ [LF]) /\ (LF ∉ body) /\
               (forall c, c ∈ body -> c ∈ s).
Proof.
  revert l. induction s as [|c s IH]; intros l H.
  - inversion H.
  - cbn [readlines] in H.
    destruct (Ascii.eqb_spec c LF) as [->|Hc].
    + apply elem_of_cons in H as [-> | H].
      * exists []. split; [right; reflexivity|].
        split; [apply not_elem_of_nil | intros c Hc; inversion Hc].
      * destruct (IH l H) as [body [E [Hb Hs]]]. exists body.
        split; [exact E|]. split; [exact Hb|].
        intros c Hc. apply list_elem_of_further. auto.
    + destruct (readlines s) as [|l0 ls] eqn:E.
      * apply list_elem_of_singleton in H as ->. exists [c].
        split; [left; reflexivity|]. split.
        -- intros H. apply list_elem_of_singleton in H. congruence.
        -- intros c' H. apply list_elem_of_singleton in H as ->.
           apply list_elem_of_here.
      * apply elem_of_cons in H as [-> | H].
        -- destruct (IH l0 (list_elem_of_here _ _)) as [body [E0 [Hb Hs]]].
           exists (c :: body). split.
           ++ destruct E0 as [-> | ->]; [left | right]; reflexivity.
           ++ split.
              ** apply not_elem_of_cons. split; [congruence | exact Hb].
              ** intros c' H. apply elem_of_cons in H as [-> | H];
                   [apply list_elem_of_here | apply list_elem_of_further; auto].
        -- destruct (IH l (list_elem_of_further _ _ _ H))
             as [body [E0 [Hb Hs]]].
           exists body. split; [exact E0|]. split; [exact Hb|].
           intros c' H'. apply list_elem_of_further. auto.
Qed.

Lemma rstrip_prefix (chars s : str) : exists t, s = rstrip chars s ++ t.
Proof.
  induction s as [|c s [t Ht]]; [exists []; reflexivity|].
  rewrite rstrip_cons. destruct (rstrip chars s) as [|x r].
  - destruct (bool_decide (c ∈ chars)).
    + exists (c :: s). reflexivity.
    + exists s. reflexivity.
  - exists t. cbn [app]. f_equal. exact Ht.
Qed.

Lemma rstrip_subset (chars s : str) (c : ascii) :
  c ∈ rstrip chars s -> c ∈ s.
Proof.
  intros H. destruct (rstrip_prefix chars s) as [t Ht]. rewrite Ht.
  apply elem_of_app. left. exact H.
Qed.

(** X2: whatever the file holds, no loaded quote contains a ["\n"] or a
    ["\r"]. *)
Theorem loaded_quotes_are_single_lines (file q : str) :
  q ∈ Quotes.quotes (Quotes.__init__ file) -> (LF ∉ q) /\ (CR ∉ q).
Proof.
  unfold Quotes.__init__, Quotes._read_quotes. cbn [Quotes.quotes Quotes.quotesfd].
  intros H. apply list_elem_of_fmap in H as [l [-> Hl]].
  destruct (readlines_shape _ _ Hl) as [body [E [Hb Hs]]].
  assert (rstrip [LF; CR] l = rstrip [LF; CR] body) as ->.
  { destruct E as [-> | ->]; [reflexivity|].
    apply rstrip_snoc. apply list_elem_of_here. }
  split; intros Hin; apply rstrip_subset in Hin.
  - contradiction.
  - apply (universal_newlines_no_cr file). auto.
Qed.

Lemma loaded_quotes_are_single_lines_witness :
  (LF ∉ py "b") /\ (CR ∉ py "b").
Proof.
  apply (loaded_quotes_are_single_lines (py "a" ++ [CR] ++ py "b" ++ [CR; LF; LF])
           (py "b")).
  vm_compute. apply list_elem_of_further, list_elem_of_here.
Defined.

(** ** Adding and restarting *)

Lemma init_of_mirrored (self : Quotes.t) :
  mirrored self -> Quotes.__init__ (Quotes.quotesfd self) = self.
Proof.
  unfold mirrored, Quotes.__init__, Quotes._read_quotes.
  destruct self as [qs fd]. cbn [Quotes.quotes Quotes.quotesfd].
  intros ->. reflexivity.
Qed.

Lemma add_many_mirror (self : Quotes.t) (qs : list str) :
  mirrored self -> line_terminated (Quotes.quotesfd self) ->
  Forall (fun q => q <> [] /\ (LF ∉ q) /\ (CR ∉ q)) qs ->
  exists self',
    add_many self qs = (Return tt, self') /\
    Quotes.quotes self' = Quotes.quotes self ++ qs /\
    Quotes.quotesfd self' =
      Quotes.quotesfd self ++ concat (map (fun q => q ++ [LF]) qs) /\
    mirrored self'.
Proof.
  intros Hm Ht Hqs. revert self Hm Ht.
  induction Hqs as [|q qs [Hne [Hlf Hcr]] _ IH]; intros self Hm Ht.
  - exists self. rewrite !app_nil_r. repeat split. exact Hm.
  - destruct (add_keeps_mirror self q Hm Ht Hne Hlf Hcr)
      as [self1 [Eadd [Efd [Ht1 Hm1]]]].
    destruct (IH self1 Hm1 Ht1) as [self' [Emany [Eq [Ef Hm']]]].
    exists self'. cbn [add_many]. rewrite Eadd. split; [exact Emany|].
    rewrite (add_valid self q Hne Hlf) in Eadd. injection Eadd as <-.
    cbn [Quotes.quotes Quotes.quotesfd] in *.
    split; [rewrite Eq, <- app_assoc; reflexivity|].
    split; [|exact Hm'].
    rewrite Ef. cbn [map concat]. rewrite <- !app_assoc. reflexivity.
Qed.

(** X3: quotes that are non-empty and hold neither ["\n"] nor ["\r"], added
    one after the other to a store that mirrors a newline-terminated file,
    are all accepted; memory holds them in the order added, the file holds
    one line per quote, and a bot restarted on that file loads exactly the
    store it had. *)
Theorem add_many_then_restart (self : Quotes.t) (qs : list str) :
  mirrored self -> line_terminated (Quotes.quotesfd self) ->
  Forall (fun q => q <> [] /\ (LF ∉ q) /\ (CR ∉ q)) qs ->
  exists self',
    add_many self qs = (Return tt, self') /\
    Quotes.quotes self' = Quotes.quotes self ++ qs /\
    Quotes.quotesfd self' =
      Quotes.quotesfd self ++ concat (map (fun q => q ++ [LF]) qs) /\
    Quotes.__init__ (Quotes.quotesfd self') = self'.
Proof.
  intros Hm Ht Hqs.
  destruct (add_many_mirror self qs Hm Ht Hqs) as [self' [E1 [E2 [E3 Hm']]]].
  exists self'. repeat split; try assumption. apply init_of_mirrored. exact Hm'.
Qed.

Lemma add_many_then_restart_witness :
  exists self',
    add_many (Quotes.__init__ []) [py "one"; py "two"] = (Return tt, self') /\
    Quotes.quotes self' = Quotes.quotes (Quotes.__init__ []) ++ [py "one"; py "two"] /\
    Quotes.quotesfd self' =
      Quotes.quotesfd (Quotes.__init__ []) ++
      concat (map (fun q => q ++ [LF]) [py "one"; py "two"]) /\
    Quotes.__init__ (Quotes.quotesfd self') = self'.
Proof.
  apply (add_many_then_restart (Quotes.__init__ []) [py "one"; py "two"]).
  - reflexivity.
  - left. reflexivity.
  - repeat constructor; try discriminate; rewrite list_elem_of_In; simpl;
      intuition discriminate.
Defined.

(** X4: a successful [add] is an append: every position that held a quote
    holds the same quote, the new quote is the last one (index [-1]), it is
    found by the membership test, and membership of any other text is what
    it was. *)
Theorem add_is_append (self self' : Quotes.t) (q : str) :
  Quotes.add self q = (Return tt, self') ->
  (forall i, 0 <= i < Quotes.__len__ self ->
     Quotes.__getitem__ self' i = Quotes.__getitem__ self i) /\
  Quotes.__getitem__ self' (-1) = Return q /\
  Quotes.contains self' q = true /\
  (forall x, x <> q -> Quotes.contains self' x = Quotes.contains self x).
Proof.
  unfold Quotes.add. destruct (_ || _); [discriminate|]. intros [= <-].
  split; [|split; [|split]].
  - intros i Hi.
    destruct (getitem_in_range self i Hi) as [x [Hx Hg]]. rewrite Hg.
    rewrite <- (Z2Nat.id i) by lia. apply getitem_nth.
    cbn [Quotes.quotes]. rewrite lookup_app_l; [exact Hx|].
    unfold Quotes.__len__ in Hi. lia.
  - unfold Quotes.__getitem__. cbn [Quotes.quotes]. rewrite length_app.
    cbn [length Z.ltb Z.compare].
    set (n := length (Quotes.quotes self)).
    destruct (Z.ltb_spec (-1 + Z.of_nat (n + 1)) 0); [lia|].
    destruct (Z.leb_spec (Z.of_nat (n + 1)) (-1 + Z.of_nat (n + 1))); [lia|].
    cbn [orb].
    replace (Z.to_nat (-1 + Z.of_nat (n + 1))) with n by lia.
    rewrite lookup_app_r by (unfold n; lia). unfold n.
    rewrite Nat.sub_diag. reflexivity.
  - apply contains_spec. cbn [Quotes.quotes]. apply elem_of_app. right.
    apply list_elem_of_here.
  - intros x Hx. unfold Quotes.contains, Quotes.__iter__. cbn [Quotes.quotes].
    apply bool_decide_ext. rewrite elem_of_app, list_elem_of_singleton. tauto.
Qed.

Lemma add_is_append_witness :
  (forall i, 0 <= i < Quotes.__len__ (Quotes.__init__ (py "one" ++ [LF])) ->
     Quotes.__getitem__
       (Quotes.mk [py "one"; py "two"] (py "one" ++ [LF] ++ py "two" ++ [LF])) i =
     Quotes.__getitem__ (Quotes.__init__ (py "one" ++ [LF])) i) /\
  Quotes.__getitem__
    (Quotes.mk [py "one"; py "two"] (py "one" ++ [LF] ++ py "two" ++ [LF])) (-1) =
    Return (py "two") /\
  Quotes.contains
    (Quotes.mk [py "one"; py "two"] (py "one" ++ [LF] ++ py "two" ++ [LF]))
    (py "two") = true /\
  (forall x, x <> py "two" ->
     Quotes.contains
       (Quotes.mk [py "one"; py "two"] (py "one" ++ [LF] ++ py "two" ++ [LF])) x =
     Quotes.contains (Quotes.__init__ (py "one" ++ [LF])) x).
Proof.
  apply (add_is_append (Quotes.__init__ (py "one" ++ [LF]))
           (Quotes.mk [py "one"; py "two"] (py "one" ++ [LF] ++ py "two" ++ [LF]))
           (py "two")).
  reflexivity.
Defined.

(** ** What a pass sends and logs *)

Lemma log_exception_effect (bot : Bot) (handler : str) (err : Exception) :
  exists e1 e2,
    chatlog (Eggy.log_exception bot handler err) = chatlog bot ++ [e1; e2] /\
    is_error e1 /\ is_error e2 /\
    sent (Eggy.log_exception bot handler err) = sent bot /\
    nickname (Eggy.log_exception bot handler err) = nickname bot /\
    trigger (Eggy.log_exception bot handler err) = trigger bot /\
    quotes (Eggy.log_exception bot handler err) = quotes bot /\
    topics (Eggy.log_exception bot handler err) = topics bot.
Proof.
  eexists _, _. split; [cbn; rewrite <- app_assoc; reflexivity|].
  split; [reflexivity|]. split; [reflexivity|].
  repeat split.
Qed.

Ltac handled_with :=
  left; split; [reflexivity|]; eexists;
  split;
    [|split; [reflexivity
             | first [reflexivity
                     | cbn [logged_as]; rewrite app_nil_r; reflexivity]]];
  first [reflexivity | exact I].
Ltac not_handled :=
  right; split; [discriminate|]; split; reflexivity.

Lemma quote_trigger_well_behaved : well_behaved QuoteTrigger.on_message.
Proof.
  intros bot event. unfold QuoteTrigger.on_message, random_choice. cbn zeta.
  destruct (negb _); [repeat split; not_handled|].
  destruct (_ =? 0); [repeat split; handled_with|].
  destruct (Quotes.__getitem__ _ _); cbn [fst snd];
    (split; [reflexivity|]; split; [reflexivity|]); [handled_with | not_handled].
Qed.

Lemma add_quote_well_behaved : well_behaved AddQuote.on_message.
Proof.
  intros bot event.
  unfold AddQuote.on_message, Command.on_message, AddQuote.on_command. cbn zeta.
  destruct (negb _); [repeat split; not_handled|].
  destruct (Quotes.contains _ _); [repeat split; handled_with|].
  unfold Quotes.add. destruct (_ || _); [repeat split; not_handled|].
  cbn [fst snd].
  destruct (topics _ !! _) as [topic|]; [|repeat split; not_handled].
  repeat case_bool_decide; cbn [fst snd];
    (split; [reflexivity|]; split; [reflexivity|]); handled_with.
Qed.

Lemma get_quote_well_behaved : well_behaved GetQuote.on_message.
Proof.
  intros bot event. unfold GetQuote.on_message. cbn zeta.
  destruct (GetQuote.trigger_match _) as [[query|]|];
    [|repeat split; handled_with|repeat split; not_handled].
  destruct (_ || _); [repeat split; not_handled|].
  destruct (Quotes.__getitem__ _ _); cbn [fst snd];
    (split; [reflexivity|]; split; [reflexivity|]); [handled_with | not_handled].
Qed.

Lemma rebirth_well_behaved : well_behaved Rebirth.on_message.
Proof.
  intros bot event.
  unfold Rebirth.on_message, Command.on_message, Rebirth.on_command. cbn zeta.
  destruct (negb _); [repeat split; not_handled|].
  destruct (negb _); [repeat split; not_handled|].
  repeat split. handled_with.
Qed.

Lemma message_handlers_well_behaved :
  Forall (fun h : str * handler_fn => well_behaved h.2) message_handlers.
Proof.
  constructor; [exact add_quote_well_behaved|].
  constructor; [exact get_quote_well_behaved|].
  constructor; [exact rebirth_well_behaved|].
  constructor; [exact quote_trigger_well_behaved | constructor].
Qed.

(** One pass over well-behaved handlers, whatever the registry. *)
Lemma pass_effect (hs : list (str * handler_fn)) :
  Forall (fun h : str * handler_fn => well_behaved h.2) hs ->
  forall bot event,
  exists errors,
    Forall is_error errors /\
    nickname (Eggy.on_message hs bot event) = nickname bot /\
    trigger (Eggy.on_message hs bot event) = trigger bot /\
    ((exists c, addressed event c /\
        sent (Eggy.on_message hs bot event) = sent bot ++ [c] /\
        chatlog (Eggy.on_message hs bot event) =
          chatlog bot ++ errors ++ logged_as (nickname bot) c) \/
     (sent (Eggy.on_message hs bot event) = sent bot /\
      chatlog (Eggy.on_message hs bot event) = chatlog bot ++ errors)).
Proof.
  induction 1 as [|[h fn] hs Hfn _ IH]; intros bot event.
  - exists []. split; [constructor|]. split; [reflexivity|].
    split; [reflexivity|]. right. rewrite app_nil_r. split; reflexivity.
  - rewrite on_message_cons. cbn zeta. cbn [snd] in Hfn.
    destruct (Hfn bot event) as [Hn [Ht He]].
    destruct (fn bot event) as [r bot1]. cbn [fst snd] in *.
    destruct He as [[-> [c [Ha [Hs Hl]]]] | [Hr [Hs Hl]]].
    + exists []. split; [constructor|]. split; [exact Hn|]. split; [exact Ht|].
      left. exists c. split; [exact Ha|]. split; [exact Hs|]. exact Hl.
    + assert (exists b1 errs,
                (match r with Return true => bot1 | _ =>
                   Eggy.on_message hs
                     (carried (mkCall h bot r bot1)) event end) =
                Eggy.on_message hs b1 event /\
                Forall is_error errs /\ nickname b1 = nickname bot /\
                trigger b1 = trigger bot /\ sent b1 = sent bot /\
                chatlog b1 = chatlog bot ++ errs) as [b1 [errs [E [Hf [Hn1 [Ht1 [Hs1 Hl1]]]]]]].
      { destruct r as [[|]|err].
        - congruence.
        - exists bot1, []. rewrite app_nil_r. repeat split; try assumption.
          constructor.
        - destruct (log_exception_effect bot1 h err)
            as [e1 [e2 [L1 [L2 [L3 [L4 [L5 [L6 _]]]]]]]].
          exists (Eggy.log_exception bot1 h err), [e1; e2].
          split; [reflexivity|]. split; [repeat constructor; assumption|].
          split; [congruence|]. split; [congruence|]. split; [congruence|].
          rewrite L1, Hl. reflexivity. }
      rewrite E. destruct (IH b1 event) as [errors [Hf' [Hn' [Ht' He']]]].
      exists (errs ++ errors). split; [apply Forall_app; split; assumption|].
      split; [congruence|]. split; [congruence|].
      destruct He' as [[c [Ha [Hs' Hl']]] | [Hs' Hl']].
      * left. exists c. split; [exact Ha|]. split; [congruence|].
        rewrite Hl', Hl1, Hn1, <- !app_assoc. reflexivity.
      * right. split; [congruence|]. rewrite Hl', Hl1, <- app_assoc. reflexivity.
Qed.

(** X5: whatever the message, the running bot issues at most one command
    for it, addressed to the message's target (a name change apart); the
    chat log gains only error lines and, for a reply, the reply under the
    bot's nickname. *)
Theorem receive_sends_at_most_one (bot : Bot) (event : Event) :
  exists errors,
    Forall is_error errors /\
    ((exists c, addressed event c /\
        sent (receive bot event) = sent bot ++ [c] /\
        chatlog (receive bot event) =
          chatlog bot ++ errors ++ logged_as (nickname bot) c) \/
     (sent (receive bot event) = sent bot /\
      chatlog (receive bot event) = chatlog bot ++ errors)).
Proof.
  destruct (pass_effect message_handlers message_handlers_well_behaved bot event)
    as [errors [Hf [_ [_ He]]]].
  exists errors. split; [exact Hf | exact He].
Qed.

Lemma pass_step (h : str) (fn : handler_fn) (rest : list (str * handler_fn))
    (bot : Bot) (event : Event) :
  well_behaved fn ->
  ((fn bot event).1 = Return true /\
   exists c, addressed event c /\
      sent (Eggy.on_message ((h, fn) :: rest) bot event) = sent bot ++ [c] /\
      chatlog (Eggy.on_message ((h, fn) :: rest) bot event) =
        chatlog bot ++ logged_as (nickname bot) c) \/
  ((fn bot event).1 <> Return true /\
   exists b1 errs,
      Eggy.on_message ((h, fn) :: rest) bot event = Eggy.on_message rest b1 event /\
      Forall is_error errs /\ nickname b1 = nickname bot /\
      trigger b1 = trigger bot /\ sent b1 = sent bot /\
      chatlog b1 = chatlog bot ++ errs).
Proof.
  intros Hfn. rewrite on_message_cons. cbn zeta.
  destruct (Hfn bot event) as [Hn [Ht He]].
  destruct (fn bot event) as [r bot1]. cbn [fst snd] in *.
  destruct He as [[-> [c [Ha [Hs Hl]]]] | [Hr [Hs Hl]]].
  - left. split; [reflexivity|]. exists c. auto.
  - right. split; [exact Hr|]. destruct r as [[|]|err].
    + congruence.
    + exists bot1, []. rewrite app_nil_r. repeat split; try assumption.
      constructor.
    + destruct (log_exception_effect bot1 h err)
        as [e1 [e2 [L1 [L2 [L3 [L4 [L5 [L6 _]]]]]]]].
      exists (Eggy.log_exception bot1 h err), [e1; e2].
      split; [reflexivity|]. split; [repeat constructor; assumption|].
      split; [congruence|]. split; [congruence|]. split; [congruence|].
      rewrite L1, Hl. reflexivity.
Qed.

(** When the last handler of a registry of well-behaved handlers handles
    every message that holds the trigger word, such a message always gets
    its one command. *)
Lemma pass_handled (hs : list (str * handler_fn)) (h : str) (fn : handler_fn)
    (event : Event) :
  Forall (fun h : str * handler_fn => well_behaved h.2) hs ->
  well_behaved fn ->
  (forall b, str_in (trigger b) (message event) = true ->
             (fn b event).1 = Return true) ->
  forall bot, str_in (trigger bot) (message event) = true ->
  exists errors c,
    Forall is_error errors /\ addressed event c /\
    sent (Eggy.on_message (hs ++ [(h, fn)]) bot event) = sent bot ++ [c] /\
    chatlog (Eggy.on_message (hs ++ [(h, fn)]) bot event) =
      chatlog bot ++ errors ++ logged_as (nickname bot) c.
Proof.
  intros Hhs Hfn Hlast. induction Hhs as [|[h0 fn0] hs Hfn0 _ IH]; intros bot Hin.
  - cbn [app]. destruct (pass_step h fn [] bot event Hfn)
      as [[_ [c [Ha [Hs Hl]]]] | [Hr _]].
    + exists [], c. split; [constructor|]. auto.
    + exfalso. apply Hr. apply Hlast. exact Hin.
  - cbn [app]. cbn [snd] in Hfn0.
    destruct (pass_step h0 fn0 (hs ++ [(h, fn)]) bot event Hfn0)
      as [[_ [c [Ha [Hs Hl]]]] | [_ [b1 [errs [E [Hf [Hn1 [Ht1 [Hs1 Hl1]]]]]]]]].
    + exists [], c. split; [constructor|]. auto.
    + rewrite E.
      destruct (IH b1) as [errors [c [Hf' [Ha [Hs' Hl']]]]].
      { rewrite Ht1. exact Hin. }
      exists (errs ++ errors), c. split; [apply Forall_app; split; assumption|].
      split; [exact Ha|]. split; [congruence|].
      rewrite Hl', Hl1, Hn1, <- !app_assoc. reflexivity.
Qed.

(** X6: a message that holds the trigger word always gets exactly one
    command from the running bot, also when an earlier handler raised: the
    chat log gains the error lines of the handlers that raised and, for a
    reply, the reply. *)
Theorem trigger_word_gets_one_command (bot : Bot) (event : Event) :
  str_in (trigger bot) (message event) = true ->
  exists errors c,
    Forall is_error errors /\ addressed event c /\
    sent (receive bot event) = sent bot ++ [c] /\
    chatlog (receive bot event) =
      chatlog bot ++ errors ++ logged_as (nickname bot) c.
Proof.
  intros Hin. rewrite receive_unfold.
  apply (pass_handled
           [(py "<__main__.AddQuote object>", AddQuote.on_message);
            (py "<__main__.GetQuote object>", GetQuote.on_message);
            (py "<__main__.Rebirth object>", Rebirth.on_message)]
           (py "<__main__.QuoteTrigger object>") QuoteTrigger.on_message).
  - constructor; [exact add_quote_well_behaved|].
    constructor; [exact get_quote_well_behaved|].
    constructor; [exact rebirth_well_behaved | constructor].
  - exact quote_trigger_well_behaved.
  - intros b Hb. destruct (quote_trigger_replies b event Hb) as [reply [b' [E _]]].
    rewrite E. reflexivity.
  - exact Hin.
Qed.

Lemma trigger_word_gets_one_command_witness :
  let bot := Eggy.__init__ (py "hello world" ++ [LF]) (fun _ => 0%nat) in
  let event := says (py "alice") (py "#ravpython") (py "eggpy add ") in
  exists errors c,
    Forall is_error errors /\ addressed event c /\
    sent (receive bot event) = sent bot ++ [c] /\
    chatlog (receive bot event) =
      chatlog bot ++ errors ++ logged_as (nickname bot) c.
Proof.
  apply (trigger_word_gets_one_command
           (Eggy.__init__ (py "hello world" ++ [LF]) (fun _ => 0%nat))
           (says (py "alice") (py "#ravpython") (py "eggpy add "))).
  reflexivity.
Defined.

Lemma startswith_str_in (s p q : str) :
  startswith s (p ++ q) = true -> str_in p s = true.
Proof.
  intros H. apply startswith_spec in H as [t ->].
  apply str_in_spec. exists [], (q ++ t). rewrite <- app_assoc. reflexivity.
Qed.

Lemma command_declines_without_trigger (command : str)
    (on_command : Bot -> Event -> str -> result bool * Bot)
    (bot : Bot) (event : Event) :
  str_in (trigger bot) (message event) = false ->
  Command.on_message command on_command bot event = (Return false, bot).
Proof.
  intros H. unfold Command.on_message.
  destruct (startswith _ _) eqn:E; [|reflexivity].
  apply startswith_str_in in E. congruence.
Qed.

Lemma receive_limited_unfold (max_str_digits : nat) (bot : Bot) (event : Event) :
  receive_limited max_str_digits bot event =
  Eggy.on_message
    [(py "<__main__.AddQuote object>", AddQuote.on_message);
     (py "<__main__.GetQuote object>", GetQuoteLimited.on_message max_str_digits);
     (py "<__main__.Rebirth object>", Rebirth.on_message);
     (py "<__main__.QuoteTrigger object>", QuoteTrigger.on_message)]
    bot event.
Proof. reflexivity. Qed.

Lemma receive_limited_declined (max_str_digits : nat) (bot : Bot) (event : Event) :
  AddQuote.on_message bot event = (Return false, bot) ->
  GetQuoteLimited.on_message max_str_digits bot event = (Return false, bot) ->
  Rebirth.on_message bot event = (Return false, bot) ->
  QuoteTrigger.on_message bot event = (Return false, bot) ->
  receive_limited max_str_digits bot event = bot.
Proof.
  intros H1 H2 H3 H4. rewrite receive_limited_unfold, on_message_cons, H1.
  cbn [fst snd carried outcome after]. rewrite on_message_cons, H2.
  cbn [fst snd carried outcome after]. rewrite on_message_cons, H3.
  cbn [fst snd carried outcome after]. rewrite on_message_cons, H4.
  reflexivity.
Qed.

(** X7: a message that neither holds the trigger word nor matches the
    [#] pattern sets off nothing in [Eggy.on_message]: the pass leaves the
    bot exactly as it was, with or without a digit limit.  The [Logger],
    whose own handler is registered on the same event, writes the inbound
    line to the chat log; whichever of the two handlers runs first, that
    one line is all the event leaves: nothing is sent, stored or cached. *)
Theorem ordinary_chat_is_only_logged (bot : Bot) (event : Event) :
  str_in (trigger bot) (message event) = false ->
  GetQuote.trigger_match (message event) = None ->
  receive bot event = bot /\
  (forall max_str_digits, receive_limited max_str_digits bot event = bot) /\
  receive (Logger.on_message bot event) event = Logger.on_message bot event /\
  Logger.on_message (receive bot event) event = Logger.on_message bot event /\
  chatlog (Logger.on_message bot event) =
    chatlog bot ++ [Logger.fmt (source event) (message event)] /\
  sent (Logger.on_message bot event) = sent bot /\
  quotes (Logger.on_message bot event) = quotes bot /\
  topics (Logger.on_message bot event) = topics bot.
Proof.
  intros Hin Hm.
  assert (forall b, trigger b = trigger bot -> receive b event = b) as Hpass.
  { intros b Hb. rewrite receive_declined.
    - unfold QuoteTrigger.on_message. rewrite Hb, Hin. reflexivity.
    - apply command_declines_without_trigger. rewrite Hb. exact Hin.
    - unfold GetQuote.on_message. rewrite Hm. reflexivity.
    - apply command_declines_without_trigger. rewrite Hb. exact Hin. }
  split; [apply Hpass; reflexivity|].
  split.
  { intros max_str_digits. apply receive_limited_declined.
    - apply command_declines_without_trigger. exact Hin.
    - unfold GetQuoteLimited.on_message. rewrite Hm. reflexivity.
    - apply command_declines_without_trigger. exact Hin.
    - unfold QuoteTrigger.on_message. rewrite Hin. reflexivity. }
  split; [apply Hpass; reflexivity|].
  split; [rewrite Hpass by reflexivity; reflexivity|].
  repeat split.
Qed.

Lemma ordinary_chat_is_only_logged_witness :
  let bot := Eggy.__init__ (py "hello world" ++ [LF]) (fun _ => 0%nat) in
  let event := says (py "alice") (py "#ravpython") (py "good morning, egg") in
  receive bot event = bot /\
  (forall max_str_digits, receive_limited max_str_digits bot event = bot) /\
  receive (Logger.on_message bot event) event = Logger.on_message bot event /\
  Logger.on_message (receive bot event) event = Logger.on_message bot event /\
  chatlog (Logger.on_message bot event) =
    chatlog bot ++ [Logger.fmt (source event) (message event)] /\
  sent (Logger.on_message bot event) = sent bot /\
  quotes (Logger.on_message bot event) = quotes bot /\
  topics (Logger.on_message bot event) = topics bot.
Proof.
  apply (ordinary_chat_is_only_logged
           (Eggy.__init__ (py "hello world" ++ [LF]) (fun _ => 0%nat))
           (says (py "alice") (py "#ravpython") (py "good morning, egg")));
    reflexivity.
Defined.

(** ** What message handling changes in the bot *)

Lemma on_message_keeps {A : Type} (f : Bot -> A) (hs : list (str * handler_fn)) :
  (forall b l, f (Logger._chatlogline b l) = f b) ->
  Forall (fun h : str * handler_fn => forall b e, f (h.2 b e).2 = f b) hs ->
  forall bot event, f (Eggy.on_message hs bot event) = f bot.
Proof.
  intros Hlog. induction 1 as [|[h fn] hs Hfn _ IH]; intros bot event;
    [reflexivity|].
  rewrite on_message_cons. cbn zeta. cbn [snd] in Hfn.
  specialize (Hfn bot event).
  destruct (fn bot event) as [[[|]|err] bot1]; cbn [fst snd] in *.
  - exact Hfn.
  - rewrite IH. exact Hfn.
  - rewrite IH. unfold carried, Eggy.log_exception, Logger.error.
    cbn [outcome after who]. rewrite !Hlog. exact Hfn.
Qed.

Lemma get_quote_frame (bot : Bot) (event : Event) :
  quotes (GetQuote.on_message bot event).2 = quotes bot /\
  topics (GetQuote.on_message bot event).2 = topics bot.
Proof.
  unfold GetQuote.on_message.
  destruct (GetQuote.trigger_match _) as [[query|]|]; [|split; reflexivity..].
  destruct (_ || _); [split; reflexivity|].
  destruct (Quotes.__getitem__ _ _); split; reflexivity.
Qed.

Lemma rebirth_frame (bot : Bot) (event : Event) :
  quotes (Rebirth.on_message bot event).2 = quotes bot /\
  topics (Rebirth.on_message bot event).2 = topics bot.
Proof.
  unfold Rebirth.on_message, Command.on_message, Rebirth.on_command.
  destruct (negb _); [split; reflexivity|].
  destruct (negb _); split; reflexivity.
Qed.

Lemma quote_trigger_frame (bot : Bot) (event : Event) :
  quotes (QuoteTrigger.on_message bot event).2 = quotes bot /\
  topics (QuoteTrigger.on_message bot event).2 = topics bot.
Proof.
  unfold QuoteTrigger.on_message, random_choice.
  destruct (negb _); [split; reflexivity|].
  destruct (_ =? 0); [split; reflexivity|].
  destruct (Quotes.__getitem__ _ _); split; reflexivity.
Qed.

Lemma add_quote_keeps_topics (bot : Bot) (event : Event) :
  topics (AddQuote.on_message bot event).2 = topics bot.
Proof.
  unfold AddQuote.on_message, Command.on_message, AddQuote.on_command.
  destruct (negb _); [reflexivity|].
  destruct (Quotes.contains _ _); [reflexivity|].
  unfold Quotes.add. destruct (_ || _); [reflexivity|]. cbn zeta.
  destruct (topics _ !! _) as [topic|]; [|reflexivity].
  repeat case_bool_decide; reflexivity.
Qed.

Lemma add_quote_store_step (bot : Bot) (event : Event) :
  quotes (AddQuote.on_message bot event).2 = quotes bot \/
  exists q, valid_quote q /\ (q ∉ Quotes.quotes (quotes bot)) /\
    quotes (AddQuote.on_message bot event).2 =
      Quotes.mk (Quotes.quotes (quotes bot) ++ [q])
                (Quotes.quotesfd (quotes bot) ++ q ++ [LF]).
Proof.
  unfold AddQuote.on_message, Command.on_message.
  destruct (negb _); [left; reflexivity|].
  set (q := drop _ _). unfold AddQuote.on_command.
  destruct (Quotes.contains (quotes bot) q) eqn:Ec; [left; reflexivity|].
  unfold Quotes.add.
  destruct (bool_decide (q = []) || str_in [LF] q) eqn:Ev; [left; reflexivity|].
  right. exists q. apply orb_false_iff in Ev as [Hne Hlf].
  split; [split|split].
  - apply bool_decide_eq_false in Hne. exact Hne.
  - intros Hin. apply str_in_char in Hin. congruence.
  - intros Hin. apply contains_spec in Hin. congruence.
  - cbn zeta. destruct (topics _ !! _) as [topic|]; [|reflexivity].
    repeat case_bool_decide; reflexivity.
Qed.

Lemma receive_store (bot : Bot) (event : Event) :
  quotes (receive bot event) = quotes (AddQuote.on_message bot event).2.
Proof.
  rewrite receive_unfold, on_message_cons. cbn zeta.
  destruct (AddQuote.on_message bot event) as [[[|]|err] bot1];
    cbn [fst snd]; [reflexivity| |];
    (rewrite (on_message_keeps quotes); [reflexivity | reflexivity |];
     constructor; [intros; apply get_quote_frame|];
     constructor; [intros; apply rebirth_frame|];
     constructor; [intros; apply quote_trigger_frame | constructor]).
Qed.

(** X8: one message changes the store by at most one quote: either memory
    and file are what they were, or one quote was appended to both; that
    quote is non-empty, holds no ["\n"], was not in the store, and is
    written as one line at the end of the file. *)
Theorem receive_store_step (bot : Bot) (event : Event) :
  quotes (receive bot event) = quotes bot \/
  exists q, valid_quote q /\ (q ∉ Quotes.quotes (quotes bot)) /\
    quotes (receive bot event) =
      Quotes.mk (Quotes.quotes (quotes bot) ++ [q])
                (Quotes.quotesfd (quotes bot) ++ q ++ [LF]).
Proof. rewrite receive_store. apply add_quote_store_step. Qed.

Lemma run_store_growth (events : list Event) (bot : Bot) :
  exists added,
    Quotes.quotes (quotes (run bot events)) =
      Quotes.quotes (quotes bot) ++ added /\
    Quotes.quotesfd (quotes (run bot events)) =
      Quotes.quotesfd (quotes bot) ++ concat (map (fun q => q ++ [LF]) added) /\
    Forall valid_quote added /\
    (NoDup (Quotes.quotes (quotes bot)) ->
     NoDup (Quotes.quotes (quotes bot) ++ added)).
Proof.
  revert bot. induction events as [|event events IH]; intros bot.
  - exists []. rewrite !app_nil_r. repeat split; auto.
  - change (run bot (event :: events)) with (run (receive bot event) events).
    destruct (IH (receive bot event)) as [added [E1 [E2 [Hv Hd]]]].
    destruct (add_quote_store_step bot event) as [Hs | [q [Hq [Hfresh Hs]]]];
      rewrite <- receive_store in Hs; rewrite Hs in E1, E2, Hd.
    + exists added. auto.
    + cbn [Quotes.quotes Quotes.quotesfd] in *.
      exists (q :: added). rewrite <- !app_assoc in *. cbn [map concat app] in *.
      rewrite <- !app_assoc in *.
      split; [exact E1|]. split; [exact E2|].
      split; [constructor; assumption|].
      intros Hnd. apply Hd. apply NoDup_app. split; [exact Hnd|].
      split.
      * intros x Hx Hin. apply list_elem_of_singleton in Hin. congruence.
      * apply NoDup_singleton.
Qed.

(** X9: over any sequence of messages the store only grows: the quotes
    held before stay at their positions, the quotes added are each
    non-empty and free of ["\n"], the file grows by exactly one line per
    added quote, and a store without duplicates stays without duplicates. *)
Theorem run_store_append_only (bot : Bot) (events : list Event) :
  exists added,
    Quotes.quotes (quotes (run bot events)) =
      Quotes.quotes (quotes bot) ++ added /\
    Quotes.quotesfd (quotes (run bot events)) =
      Quotes.quotesfd (quotes bot) ++ concat (map (fun q => q ++ [LF]) added) /\
    Forall valid_quote added /\
    (NoDup (Quotes.quotes (quotes bot)) ->
     NoDup (Quotes.quotes (quotes (run bot events)))).
Proof.
  destruct (run_store_growth events bot) as [added [E1 [E2 [Hv Hd]]]].
  exists added. rewrite E1. auto.
Qed.

Lemma receive_keeps_topics (bot : Bot) (event : Event) :
  topics (receive bot event) = topics bot.
Proof.
  rewrite receive_unfold. apply (on_message_keeps topics); [reflexivity|].
  constructor; [intros; apply add_quote_keeps_topics|].
  constructor; [intros; apply get_quote_frame|].
  constructor; [intros; apply rebirth_frame|].
  constructor; [intros; apply quote_trigger_frame | constructor].
Qed.

(** X10: chat messages never change the topic cache or the trigger word,
    however many are handled; in particular a topic the bot asks for is not
    cached by the request itself. *)
Theorem run_keeps_topics_and_trigger (bot : Bot) (events : list Event) :
  topics (run bot events) = topics bot /\
  trigger (run bot events) = trigger bot.
Proof.
  revert bot. induction events as [|event events IH]; intros bot.
  - split; reflexivity.
  - change (run bot (event :: events)) with (run (receive bot event) events).
    destruct (IH (receive bot event)) as [E1 E2].
    rewrite E1, E2, receive_keeps_topics, receive_keeps_trigger.
    split; reflexivity.
Qed.

(** ** The topic cache *)

(** X11: [on_any] reacts to [TOPIC] events only.  With a first parameter,
    the topic is cached for the event's target (replacing what was cached
    there, other targets untouched) and one line is logged; nothing is
    sent and the store is untouched.  Without parameters the handler
    raises [IndexError] before anything is logged or cached. *)
Theorem on_any_caches_topic (bot : Bot) (event : Irc.event) :
  (Irc.command event <> py "TOPIC" -> on_any bot event = (Return tt, bot)) /\
  (Irc.command event = py "TOPIC" -> Irc.params event = [] ->
   on_any bot event = (Raise IndexError, bot)) /\
  (forall topic rest,
     Irc.command event = py "TOPIC" -> Irc.params event = topic :: rest ->
     exists bot',
       on_any bot event = (Return tt, bot') /\
       topics bot' !! Irc.target event = Some topic /\
       (forall t, t <> Irc.target event -> topics bot' !! t = topics bot !! t) /\
       chatlog bot' =
         chatlog bot ++
         [Irc.source event ++ py " changed topic in " ++ Irc.target event ++
          py " to: " ++ topic] /\
       sent bot' = sent bot /\ quotes bot' = quotes bot).
Proof.
  unfold on_any. split; [|split].
  - intros H. rewrite bool_decide_eq_false_2 by exact H. reflexivity.
  - intros H Hp. rewrite bool_decide_eq_true_2 by exact H. rewrite Hp. reflexivity.
  - intros topic rest H Hp. rewrite bool_decide_eq_true_2 by exact H.
    rewrite Hp. cbn [lookup list_lookup]. eexists. split; [reflexivity|].
    cbn [topics Eggy.topic_changed set_topics Logger.on_change_topic
         Logger._chatlogline set_chatlog].
    split; [apply lookup_insert_eq|].
    split; [intros t Ht; apply lookup_insert_ne; congruence|].
    repeat split.
Qed.

(** X12: [on_reply] reacts to [RPL_TOPIC] replies only.  With two
    parameters, the second is cached as the topic of the channel named by
    the first and one line is logged.  With fewer than two parameters the
    handler raises [IndexError] and nothing is logged or cached. *)
Theorem on_reply_caches_topic (bot : Bot) (event : Irc.event) :
  (Irc.command event <> py "RPL_TOPIC" -> on_reply bot event = (Return tt, bot)) /\
  (Irc.command event = py "RPL_TOPIC" ->
   (length (Irc.params event) < 2)%nat ->
   on_reply bot event = (Raise IndexError, bot)) /\
  (forall chan topic rest,
     Irc.command event = py "RPL_TOPIC" ->
     Irc.params event = chan :: topic :: rest ->
     exists bot',
       on_reply bot event = (Return tt, bot') /\
       topics bot' !! chan = Some topic /\
       (forall t, t <> chan -> topics bot' !! t = topics bot !! t) /\
       chatlog bot' =
         chatlog bot ++ [py "Topic in " ++ chan ++ py " is: " ++ topic] /\
       sent bot' = sent bot /\ quotes bot' = quotes bot).
Proof.
  unfold on_reply. split; [|split].
  - intros H. rewrite bool_decide_eq_false_2 by exact H. reflexivity.
  - intros H Hp. rewrite bool_decide_eq_true_2 by exact H.
    destruct (Irc.params event) as [|p0 [|p1 ps]]; [reflexivity..|].
    cbn [length] in Hp. lia.
  - intros chan topic rest H Hp. rewrite bool_decide_eq_true_2 by exact H.
    rewrite Hp. cbn [lookup list_lookup]. eexists. split; [reflexivity|].
    cbn [topics Eggy.topic_changed set_topics Logger.on_initial_topic
         Logger._chatlogline set_chatlog].
    split; [apply lookup_insert_eq|].
    split; [intros t Ht; apply lookup_insert_ne; congruence|].
    repeat split.
Qed.

Lemma str_in_re_sub (pat repl s : str) :
  pat <> [] -> str_in pat s = true -> str_in repl (re_sub pat repl s) = true.
Proof.
  intros Hpat. unfold re_sub. induction s as [|c s IH]; intros H.
  - simpl in H. rewrite orb_false_r in H. apply startswith_spec in H as [t Ht].
    symmetry in Ht. apply app_eq_nil in Ht as [-> _]. congruence.
  - rewrite str_in_cons in H. cbn [re_sub_from].
    destruct (startswith (c :: s) pat) eqn:E.
    + apply (str_in_app repl []).
    + simpl in H. rewrite str_in_cons, (IH H). apply orb_true_r.
Qed.

(** X13: the topic annotation stays in step with the store.  When the
    cached topic shows the count and a fresh valid quote is added, the bot
    asks for the renumbered topic, which differs from the old one, and
    sends no reply; its cache still holds the old text
    until the server reports the change, and once [on_any] has seen that
    [TOPIC] event the cached topic shows the new count again. *)
Theorem topic_stays_in_step (bot : Bot) (event : Event)
    (new_quote topic changer : str) :
  new_quote <> [] -> LF ∉ new_quote ->
  new_quote ∉ Quotes.quotes (quotes bot) ->
  topics bot !! target event = Some topic ->
  str_in (str_int (Quotes.__len__ (quotes bot))) topic = true ->
  exists newtopic bot1 bot2,
    AddQuote.on_command bot event new_quote = (Return true, bot1) /\
    newtopic <> topic /\
    sent bot1 = sent bot ++ [TOPIC (target event) newtopic] /\
    chatlog bot1 = chatlog bot /\
    topics bot1 !! target event = Some topic /\
    on_any bot1 (Irc.mk (py "TOPIC") changer (target event) [newtopic]) =
      (Return tt, bot2) /\
    topics bot2 !! target event = Some newtopic /\
    str_in (str_int (Quotes.__len__ (quotes bot2))) newtopic = true.
Proof.
  intros H1 H2 H3 Ht Hin.
  set (n := Quotes.__len__ (quotes bot)) in *.
  assert (0 <= n) as Hn by (unfold n, Quotes.__len__; lia).
  set (newtopic := re_sub (str_int n) (str_int (n + 1)) topic).
  assert (newtopic <> topic) as Hne.
  { unfold newtopic. apply re_sub_changes; [|exact Hin].
    rewrite !str_int_nonneg by lia. intros x y E. symmetry in E.
    exact (digits_succ_apart n y x Hn E). }
  assert (str_int n <> []) as Hpat.
  { rewrite str_int_nonneg by lia. apply digits_nonempty. }
  assert (topic <> []) as Hnil.
  { intros ->. destruct (str_int n); [congruence | discriminate Hin]. }
  pose proof (add_quote_fresh bot event new_quote H1 H2 H3) as E.
  cbn zeta in E. fold n in E. rewrite Ht in E. fold newtopic in E.
  rewrite !bool_decide_eq_true_2 in E by assumption. cbn [andb] in E.
  eexists newtopic, _, _. split; [exact E|]. split; [exact Hne|].
  split; [reflexivity|]. split; [reflexivity|]. split; [exact Ht|].
  split; [reflexivity|].
  cbn [topics Eggy.topic_changed set_topics Logger.on_change_topic
       Logger._chatlogline set_chatlog Irc.target Irc.params Irc.source
       Eggy.change_topic set_sent set_quotes quotes].
  split; [apply lookup_insert_eq|].
  unfold Quotes.__len__. cbn [Quotes.quotes]. rewrite length_app. cbn [length].
  replace (Z.of_nat (length (Quotes.quotes (quotes bot)) + 1)) with (n + 1)
    by (unfold n, Quotes.__len__; lia).
  apply str_in_re_sub; assumption.
Qed.

Lemma topic_stays_in_step_witness :
  let bot :=
    Eggy.topic_changed (Eggy.__init__ (py "one" ++ [LF]) (fun _ => 0%nat))
      (py "#ravpython") (py "1 quotes so far") in
  let event := says (py "alice") (py "#ravpython") (py "eggpy add two") in
  exists newtopic bot1 bot2,
    AddQuote.on_command bot event (py "two") = (Return true, bot1) /\
    newtopic <> py "1 quotes so far" /\
    sent bot1 = sent bot ++ [TOPIC (target event) newtopic] /\
    chatlog bot1 = chatlog bot /\
    topics bot1 !! target event = Some (py "1 quotes so far") /\
    on_any bot1 (Irc.mk (py "TOPIC") (py "ravpython") (target event) [newtopic]) =
      (Return tt, bot2) /\
    topics bot2 !! target event = Some newtopic /\
    str_in (str_int (Quotes.__len__ (quotes bot2))) newtopic = true.
Proof.
  apply (topic_stays_in_step
           (Eggy.topic_changed (Eggy.__init__ (py "one" ++ [LF]) (fun _ => 0%nat))
              (py "#ravpython") (py "1 quotes so far"))
           (says (py "alice") (py "#ravpython") (py "eggpy add two"))
           (py "two") (py "1 quotes so far") (py "ravpython")).
  - discriminate.
  - rewrite list_elem_of_In. simpl. intuition discriminate.
  - rewrite list_elem_of_In. simpl. intuition discriminate.
  - reflexivity.
  - reflexivity.
Defined.

(** ** A malformed add *)

Lemma set_quotes_same (bot : Bot) : set_quotes bot (quotes bot) = bot.
Proof. destruct bot. reflexivity. Qed.

(** X14: an add whose candidate is empty or holds a ["\n"] (and is not in
    the store) makes [Quotes.add] raise [ValueError] inside [AddQuote]:
    nothing is stored, the dispatcher logs the two error lines, and since
    the message holds the trigger word [QuoteTrigger] answers it with
    ["No quotes"] or a stored quote. *)
Theorem invalid_add_is_logged_and_answered (bot : Bot) (event : Event) (q : str) :
  trigger bot = py "eggpy" ->
  message event = py "eggpy add " ++ q ->
  q = [] \/ LF ∈ q ->
  q ∉ Quotes.quotes (quotes bot) ->
  exists reply,
    AddQuote.on_message bot event = (Raise ValueError, bot) /\
    quotes (receive bot event) = quotes bot /\
    sent (receive bot event) = sent bot ++ [PRIVMSG (target event) reply] /\
    chatlog (receive bot event) =
      chatlog bot ++
      [py "Error: Handler <__main__.AddQuote object> threw exception <class 'ValueError'>";
       py "Error: ";
       Logger.fmt (nickname bot) reply] /\
    (Quotes.quotes (quotes bot) = [] /\ reply = py "No quotes" \/
     reply ∈ Quotes.quotes (quotes bot)).
Proof.
  intros Ht Hm Hq Hfresh.
  assert (AddQuote.on_message bot event = (Raise ValueError, bot)) as EA.
  { rewrite (add_quote_prefix bot event q) by (rewrite Ht; exact Hm).
    unfold AddQuote.on_command.
    assert (Quotes.contains (quotes bot) q = false) as ->.
    { apply not_true_is_false. rewrite contains_spec. exact Hfresh. }
    rewrite (add_invalid _ _ Hq), set_quotes_same. reflexivity. }
  set (b1 := Eggy.log_exception bot (py "<__main__.AddQuote object>") ValueError).
  assert (GetQuote.on_message b1 event = (Return false, b1)) as EG.
  { unfold GetQuote.on_message. rewrite Hm. reflexivity. }
  assert (Rebirth.on_message b1 event = (Return false, b1)) as ER.
  { unfold Rebirth.on_message, Command.on_message.
    change (trigger b1) with (trigger bot). rewrite Ht, Hm. reflexivity. }
  destruct (quote_trigger_replies b1 event) as [reply [b' [EQ Hreply]]].
  { change (trigger b1) with (trigger bot). rewrite Ht, Hm. reflexivity. }
  assert (receive bot event = Eggy.respond b' event reply) as E.
  { rewrite receive_unfold, on_message_cons, EA. cbn [fst snd].
    unfold carried. cbn [outcome after who]. fold b1.
    rewrite on_message_cons, EG. cbn [fst snd carried outcome after].
    rewrite on_message_cons, ER. cbn [fst snd carried outcome after].
    rewrite on_message_cons, EQ. reflexivity. }
  exists reply. split; [exact EA|]. rewrite E.
  change (Quotes.quotes (quotes b1)) with (Quotes.quotes (quotes bot)) in Hreply.
  destruct Hreply as [[Hq0 [-> ->]] | [Hin ->]].
  - split; [reflexivity|]. split; [reflexivity|].
    split; [cbn; rewrite <- !app_assoc; reflexivity|]. left. auto.
  - split; [reflexivity|]. split; [reflexivity|].
    split; [cbn; rewrite <- !app_assoc; reflexivity|]. right. exact Hin.
Qed.

Lemma invalid_add_is_logged_and_answered_witness :
  let bot := Eggy.__init__ (py "hello world" ++ [LF]) (fun _ => 0%nat) in
  let event := says (py "alice") (py "#ravpython") (py "eggpy add ") in
  exists reply,
    AddQuote.on_message bot event = (Raise ValueError, bot) /\
    quotes (receive bot event) = quotes bot /\
    sent (receive bot event) = sent bot ++ [PRIVMSG (target event) reply] /\
    chatlog (receive bot event) =
      chatlog bot ++
      [py "Error: Handler <__main__.AddQuote object> threw exception <class 'ValueError'>";
       py "Error: ";
       Logger.fmt (nickname bot) reply] /\
    (Quotes.quotes (quotes bot) = [] /\ reply = py "No quotes" \/
     reply ∈ Quotes.quotes (quotes bot)).
Proof.
  apply (invalid_add_is_logged_and_answered
           (Eggy.__init__ (py "hello world" ++ [LF]) (fun _ => 0%nat))
           (says (py "alice") (py "#ravpython") (py "eggpy add ")) []).
  - reflexivity.
  - reflexivity.
  - left. reflexivity.
  - rewrite list_elem_of_In. simpl. intuition discriminate.
Defined.

(** ** The patterns *)

Lemma chr_ord (c : ascii) : chr (ord c) = c.
Proof. apply ascii_nat_embedding. Qed.

Lemma digit_char_val (c : ascii) :
  is_digit c = true -> digit_char (digit_val c) = c.
Proof.
  unfold is_digit, digit_char, digit_val. intros H.
  apply andb_true_iff in H as [H1 _]. apply Nat.leb_le in H1.
  rewrite Nat2Z.id. replace (48 + (ord c - 48))%nat with (ord c) by lia.
  apply chr_ord.
Qed.

Lemma digits_aux_fuel (f1 f2 : nat) (n : Z) :
  0 <= n <= Z.of_nat f1 -> n <= Z.of_nat f2 ->
  digits_aux (S f1) n [] = digits_aux (S f2) n [].
Proof.
  revert n f2. induction f1 as [|f1 IH]; intros n f2 H1 H2;
    rewrite (digits_aux_step _ n), (digits_aux_step f2 n);
    destruct (Z.eqb_spec (n / 10) 0) as [E|E]; try reflexivity.
  - exfalso. apply E. assert (n = 0) as -> by lia. reflexivity.
  - pose proof (Z.mod_pos_bound n 10 ltac:(lia)) as Hm.
    pose proof (Z.div_mod n 10 ltac:(lia)) as Hd.
    assert (0 <= n / 10) by (apply Z.div_pos; lia).
    destruct f2 as [|f2]; [exfalso; lia|].
    f_equal. apply IH; lia.
Qed.

Lemma digits_small (d : Z) : 0 <= d <= 9 -> digits d = [digit_char d].
Proof.
  intros H. unfold digits. rewrite digits_aux_step.
  rewrite Z.div_small, Z.mod_small by lia. reflexivity.
Qed.

Lemma digits_snoc (v d : Z) :
  0 < v -> 0 <= d <= 9 -> digits (v * 10 + d) = digits v ++ [digit_char d].
Proof.
  intros Hv Hd. unfold digits at 1. rewrite digits_aux_step.
  assert ((v * 10 + d) / 10 = v) as ->.
  { rewrite Z.div_add_l by lia. rewrite (Z.div_small d 10) by lia. lia. }
  assert ((v * 10 + d) mod 10 = d) as ->.
  { rewrite Z.add_comm, Z.mod_add by lia. apply Z.mod_small. lia. }
  destruct (Z.eqb_spec v 0) as [E|_]; [lia|]. f_equal.
  destruct (Z.to_nat (v * 10 + d)) as [|k] eqn:Ek; [lia|].
  unfold digits. apply digits_aux_fuel; lia.
Qed.

(** A numeral without leading zero is the text of its value. *)
Lemma digits_canonical (s : str) :
  Forall (fun c => is_digit c = true) s ->
  (exists d ds, s = d :: ds /\ d <> "0"%char) ->
  digits (digits_value s) = s /\ 0 < digits_value s.
Proof.
  induction s as [|c s IH] using rev_ind; intros Hall [d [ds [E Hd]]].
  - discriminate.
  - apply Forall_app in Hall as [Hs Hc]. apply Forall_cons in Hc as [Hc _].
    pose proof (digit_val_range c Hc) as Hr.
    rewrite digits_value_app. unfold digits_value at 2 4. cbn [fold_left length].
    change (10 ^ Z.of_nat 1) with 10. rewrite Z.mul_0_l, Z.add_0_l.
    destruct s as [|d' s'].
    + cbn [app] in E. injection E as <- _.
      change (digits_value []) with 0. rewrite Z.mul_0_l, Z.add_0_l.
      assert (digit_val c <> 0) as Hnz.
      { intros Hz. apply Hd. rewrite <- (digit_char_val c Hc), Hz. reflexivity. }
      split; [|lia]. rewrite digits_small by lia.
      rewrite digit_char_val by exact Hc. reflexivity.
    + destruct IH as [IH1 IH2]; [exact Hs | |].
      { cbn [app] in E. injection E as <- _. exists d', s'. auto. }
      split; [|lia]. rewrite digits_snoc by lia.
      rewrite IH1, digit_char_val by exact Hc. reflexivity.
Qed.

Lemma span_spec (p : ascii -> bool) (s a b : str) :
  span p s = (a, b) ->
  s = a ++ b /\ Forall (fun c => p c = true) a /\
  match b with [] => True | c :: _ => p c = false end.
Proof.
  revert a b. induction s as [|c s IH]; intros a b H.
  - injection H as <- <-. repeat split. constructor.
  - cbn [span] in H. destruct (p c) eqn:E.
    + destruct (span p s) as [a' b']. injection H as <- <-.
      destruct (IH a' b' eq_refl) as [-> [Ha Hb]].
      split; [reflexivity|]. split; [constructor; assumption | exact Hb].
    + injection H as <- <-. split; [reflexivity|]. split; [constructor | exact E].
Qed.

Lemma span_app (p : ascii -> bool) (a b : str) :
  Forall (fun c => p c = true) a ->
  match b with [] => True | c :: _ => p c = false end ->
  span p (a ++ b) = (a, b).
Proof.
  intros Ha Hb. induction Ha as [|c a Hc _ IH].
  - destruct b as [|c b]; [reflexivity|]. cbn [app span]. rewrite Hb. reflexivity.
  - cbn [app span]. rewrite Hc, IH. reflexivity.
Qed.

Lemma at_end_spec (s : str) : at_end s = true <-> s = [] \/ s = [LF].
Proof.
  unfold at_end. rewrite orb_true_iff, !bool_decide_eq_true. reflexivity.
Qed.

Lemma trigger_group_inv (s q rest : str) :
  GetQuote.trigger_group s = Some (q, rest) ->
  s = q ++ rest /\ exists k, k <> 0 /\ q = str_int k.
Proof.
  unfold GetQuote.trigger_group.
  assert (forall (sign s1 : str),
            match s1 with
            | d :: s2 =>
                if is_digit d && negb (d =? "0")%char
                then let '(ds, rest0) := span is_digit s2 in
                     Some (sign ++ d :: ds, rest0)
                else None
            | [] => None
            end = Some (q, rest) ->
            exists body, q = sign ++ body /\ s1 = body ++ rest /\
              digits (digits_value body) = body /\ 0 < digits_value body)
    as Hbody.
  { intros sign [|d s2] H; [discriminate|].
    destruct (is_digit d && negb (d =? "0")%char) eqn:E; [|discriminate].
    apply andb_true_iff in E as [Hd Hz]. apply negb_true_iff in Hz.
    apply Ascii.eqb_neq in Hz.
    destruct (span is_digit s2) as [ds rest0] eqn:Es. injection H as <- <-.
    apply span_spec in Es as [-> [Hds _]].
    exists (d :: ds). split; [reflexivity|]. split; [reflexivity|].
    apply digits_canonical; [constructor; assumption | eauto]. }
  destruct s as [|c s'].
  - discriminate.
  - destruct (Ascii.eqb_spec c "-"%char) as [->|Hc]; intros H;
      [apply (Hbody ["-"%char] s') in H as [body [-> [E [Hcanon Hpos]]]]
      |apply (Hbody [] (c :: s')) in H as [body [-> [E [Hcanon Hpos]]]]].
    + split; [rewrite E; reflexivity|].
      exists (- digits_value body). split; [lia|].
      rewrite str_int_neg by lia. rewrite Z.opp_involutive, Hcanon. reflexivity.
    + split; [exact E|].
      exists (digits_value body). split; [lia|].
      rewrite str_int_nonneg by lia. rewrite Hcanon. reflexivity.
Qed.

Lemma trigger_group_number (k : Z) (rest : str) :
  k <> 0 ->
  match rest with [] => True | c :: _ => is_digit c = false end ->
  GetQuote.trigger_group (str_int k ++ rest) = Some (str_int k, rest).
Proof.
  intros Hk Hrest.
  assert (forall n, 0 < n -> forall sign,
            match digits n ++ rest with
            | d :: s2 =>
                if is_digit d && negb (d =? "0")%char
                then let '(ds, rest0) := span is_digit s2 in
                     Some (sign ++ d :: ds, rest0)
                else None
            | [] => None
            end = Some (sign ++ digits n, rest)) as Hbody.
  { intros n Hn sign. pose proof (digits_all n ltac:(lia)) as Hall.
    destruct (digits_head n Hn) as [d [ds [E [Hd Hz]]]].
    rewrite E in Hall |- *. apply Forall_cons in Hall as [_ Hds].
    cbn [app]. rewrite Hd. apply Ascii.eqb_neq in Hz. rewrite Hz. cbn [negb andb].
    rewrite (span_app _ _ _ Hds Hrest). reflexivity. }
  unfold GetQuote.trigger_group.
  destruct (Z.lt_ge_cases k 0) as [H|H].
  - rewrite str_int_neg by exact H. cbn [app].
    rewrite (Ascii.eqb_refl "-"%char). apply (Hbody (- k) ltac:(lia) ["-"%char]).
  - rewrite str_int_nonneg by exact H.
    destruct (digits_head k ltac:(lia)) as [d [ds [E [Hd _]]]].
    pose proof (Hbody k ltac:(lia) []) as Hb. rewrite E in Hb |- *.
    cbn [app] in Hb |- *. rewrite (is_digit_not_minus d Hd). exact Hb.
Qed.

(** The pattern of [GetQuote], read off [trigger_match]. *)
Lemma trigger_match_spec (msg : str) :
  (forall q,
     GetQuote.trigger_match msg = Some (Some q) <->
     exists k, k <> 0 /\ q = str_int k /\
               (msg = py "#" ++ q \/ msg = py "#" ++ q ++ [LF])) /\
  (GetQuote.trigger_match msg = Some None <->
   msg = py "#" \/ msg = py "#" ++ [LF]).
Proof.
  split.
  - intros q. split.
    + unfold GetQuote.trigger_match. destruct msg as [|c s]; [discriminate|].
      destruct (Ascii.eqb_spec c "#"%char) as [->|_]; [|discriminate].
      destruct (GetQuote.trigger_group s) as [[query rest]|] eqn:Eg.
      * apply trigger_group_inv in Eg as [-> [k [Hk ->]]].
        destruct (at_end rest) eqn:Ee.
        -- intros [= <-]. exists k. split; [exact Hk|]. split; [reflexivity|].
           apply at_end_spec in Ee as [-> | ->];
             [left; rewrite app_nil_r | right]; reflexivity.
        -- intros H. destruct (at_end (str_int k ++ rest)); discriminate H.
      * intros H. destruct (at_end s); discriminate H.
    + intros [k [Hk [-> [-> | ->]]]].
      * apply trigger_match_number. exact Hk.
      * change (py "#" ++ str_int k ++ [LF]) with ("#"%char :: str_int k ++ [LF]).
        unfold GetQuote.trigger_match. rewrite (Ascii.eqb_refl "#"%char).
        rewrite trigger_group_number by (exact Hk || reflexivity). reflexivity.
  - split.
    + unfold GetQuote.trigger_match. destruct msg as [|c s]; [discriminate|].
      destruct (Ascii.eqb_spec c "#"%char) as [->|_]; [|discriminate].
      destruct (at_end s) eqn:Ee.
      * intros _. apply at_end_spec in Ee as [-> | ->]; [left | right]; reflexivity.
      * intros H. destruct (GetQuote.trigger_group s) as [[query rest]|];
          [|discriminate H].
        destruct (at_end rest); discriminate H.
    + intros [-> | ->]; reflexivity.
Qed.

(** *** The digit limit of [int()] *)

Lemma int_limited_within (max_str_digits : nat) (s : str) :
  max_str_digits = 0%nat \/ (digit_count s <= max_str_digits)%nat ->
  int_limited max_str_digits s = Return (py_int s).
Proof.
  intros H. unfold int_limited.
  destruct (Nat.ltb_spec 0 max_str_digits) as [H0|H0];
    destruct (Nat.ltb_spec max_str_digits (digit_count s)) as [H1|H1];
    cbn [andb]; try reflexivity.
  exfalso. lia.
Qed.

Lemma int_limited_beyond (max_str_digits : nat) (s : str) :
  (0 < max_str_digits < digit_count s)%nat ->
  int_limited max_str_digits s =
  Raise (digit_limit_error max_str_digits (digit_count s)).
Proof.
  intros [H0 H1]. unfold int_limited.
  destruct (Nat.ltb_spec 0 max_str_digits); [|lia].
  destruct (Nat.ltb_spec max_str_digits (digit_count s)); [|lia].
  reflexivity.
Qed.

(** X15: read on messages whose characters all lie below U+0100 (the
    characters of [str], among which the digit class of the pattern is
    exactly [0-9]).  The messages [GetQuote] takes as an index are exactly
    ["#"] followed by the decimal text of a non-zero integer (no plus sign,
    no leading zero), optionally followed by one newline; the messages it
    takes as the count query are exactly ["#"] and ["#\n"].  [int()] of the
    numeral is that integer when the numeral has no more digits than the
    interpreter allows (or the limit is off), and raises [ValueError]
    otherwise. *)
Theorem index_pattern (msg : str) :
  (forall q,
     GetQuote.trigger_match msg = Some (Some q) <->
     exists k, k <> 0 /\ q = str_int k /\
               (msg = py "#" ++ q \/ msg = py "#" ++ q ++ [LF])) /\
  (GetQuote.trigger_match msg = Some None <->
   msg = py "#" \/ msg = py "#" ++ [LF]) /\
  (forall max_str_digits k,
     max_str_digits = 0%nat \/ (digit_count (str_int k) <= max_str_digits)%nat ->
     int_limited max_str_digits (str_int k) = Return k) /\
  (forall max_str_digits k,
     (0 < max_str_digits < digit_count (str_int k))%nat ->
     int_limited max_str_digits (str_int k) =
     Raise (digit_limit_error max_str_digits (digit_count (str_int k)))).
Proof.
  destruct (trigger_match_spec msg) as [H1 H2].
  split; [exact H1|]. split; [exact H2|]. split.
  - intros max_str_digits k H. rewrite int_limited_within by exact H.
    rewrite py_int_str_int. reflexivity.
  - intros max_str_digits k H. apply int_limited_beyond. exact H.
Qed.

(** X16: [Rebirth] asks for a new nickname exactly when the argument is a
    non-empty run of ASCII letters and digits, optionally followed by one
    newline; the [NICK] command then carries the argument as it is (with
    that newline, if any) and no reply is sent.  Any other argument is not
    handled and leaves the bot as it was. *)
Theorem rebirth_accepts_alphanumerics (bot : Bot) (event : Event) (args : str) :
  let plain :=
    exists name, name <> [] /\
      Forall (fun c => Rebirth.is_alnum c = true) name /\
      (args = name \/ args = name ++ [LF]) in
  (plain ->
   Rebirth.on_command bot event args = (Return true, Eggy.set_nickname bot args) /\
   sent (Eggy.set_nickname bot args) = sent bot ++ [NICK args] /\
   chatlog (Eggy.set_nickname bot args) = chatlog bot) /\
  (~ plain -> Rebirth.on_command bot event args = (Return false, bot)).
Proof.
  cbn zeta. unfold Rebirth.on_command, Rebirth.allowable_match.
  destruct (span Rebirth.is_alnum args) as [name rest] eqn:Es.
  pose proof (span_spec _ _ _ _ Es) as [Hargs [Hname Hrest]].
  split.
  - intros [name' [Hne [Hall Hshape]]].
    assert (span Rebirth.is_alnum args = (name', drop (length name') args)) as Es'.
    { destruct Hshape as [-> | ->].
      - rewrite drop_all. rewrite <- (app_nil_r name') at 1.
        apply span_app; [exact Hall | exact I].
      - rewrite drop_app_length. apply span_app; [exact Hall | reflexivity]. }
    rewrite Es in Es'. injection Es' as -> ->.
    rewrite bool_decide_eq_false_2 by exact Hne.
    assert (at_end (drop (length name') args) = true) as ->.
    { apply at_end_spec. destruct Hshape as [-> | ->];
        [left; apply drop_all | right; apply drop_app_length]. }
    repeat split.
  - intros Hnot.
    destruct (negb (bool_decide (name = [])) && at_end rest) eqn:E;
      [|reflexivity].
    exfalso. apply Hnot. apply andb_true_iff in E as [E1 E2].
    apply negb_true_iff, bool_decide_eq_false in E1.
    exists name. split; [exact E1|]. split; [exact Hname|].
    apply at_end_spec in E2 as [-> | ->];
      [left; rewrite Hargs, app_nil_r | right; rewrite Hargs]; reflexivity.
Qed.

(** ** An add when the topic shows no count *)

(** X17: a fresh valid quote is added while a topic is cached for the
    target in which the current count does not occur (the empty topic
    included): the quote is stored, the confirmation with the new count is
    sent and logged, and no topic change is asked for; the bot never puts
    a count into a topic that shows none. *)
Theorem add_without_annotation_is_confirmed (bot : Bot) (event : Event)
    (q topic : str) :
  q <> [] -> LF ∉ q -> q ∉ Quotes.quotes (quotes bot) ->
  message event = trigger bot ++ py " add " ++ q ->
  topics bot !! target event = Some topic ->
  str_in (str_int (Quotes.__len__ (quotes bot))) topic = false ->
  let confirmation :=
    py "Quote added. " ++ str_int (Quotes.__len__ (quotes bot) + 1) ++
    py " quotes in database" in
  sent (receive bot event) = sent bot ++ [PRIVMSG (target event) confirmation] /\
  chatlog (receive bot event) =
    chatlog bot ++ [Logger.fmt (nickname bot) confirmation] /\
  Quotes.quotes (quotes (receive bot event)) = Quotes.quotes (quotes bot) ++ [q] /\
  Quotes.quotesfd (quotes (receive bot event)) =
    Quotes.quotesfd (quotes bot) ++ q ++ [LF].
Proof.
  intros H1 H2 H3 Hm Ht Hin confirmation.
  assert (receive bot event =
          Eggy.respond
            (set_quotes bot
               (Quotes.mk (Quotes.quotes (quotes bot) ++ [q])
                          (Quotes.quotesfd (quotes bot) ++ q ++ [LF])))
            event confirmation) as E.
  { apply receive_add_quote. rewrite (add_quote_prefix _ _ _ Hm).
    rewrite (add_quote_fresh bot event q H1 H2 H3), Ht.
    rewrite (re_sub_absent _ _ _ Hin).
    rewrite (bool_decide_eq_false_2 (topic <> topic)) by congruence.
    rewrite andb_false_r. reflexivity. }
  rewrite E. repeat split.
Qed.

Lemma add_without_annotation_is_confirmed_witness :
  let bot :=
    Eggy.topic_changed (Eggy.__init__ (py "one" ++ [LF]) (fun _ => 0%nat))
      (py "#ravpython") (py "random channel") in
  let event := says (py "alice") (py "#ravpython") (py "eggpy add two") in
  let confirmation :=
    py "Quote added. " ++ str_int (Quotes.__len__ (quotes bot) + 1) ++
    py " quotes in database" in
  sent (receive bot event) = sent bot ++ [PRIVMSG (target event) confirmation] /\
  chatlog (receive bot event) =
    chatlog bot ++ [Logger.fmt (nickname bot) confirmation] /\
  Quotes.quotes (quotes (receive bot event)) =
    Quotes.quotes (quotes bot) ++ [py "two"] /\
  Quotes.quotesfd (quotes (receive bot event)) =
    Quotes.quotesfd (quotes bot) ++ py "two" ++ [LF].
Proof.
  apply (add_without_annotation_is_confirmed
           (Eggy.topic_changed (Eggy.__init__ (py "one" ++ [LF]) (fun _ => 0%nat))
              (py "#ravpython") (py "random channel"))
           (says (py "alice") (py "#ravpython") (py "eggpy add two"))
           (py "two") (py "random channel")).
  - discriminate.
  - rewrite list_elem_of_In. simpl. intuition discriminate.
  - rewrite list_elem_of_In. simpl. intuition discriminate.
  - reflexivity.
  - reflexivity.
  - reflexivity.
Defined.

(** ** Adding the same quote twice *)

Lemma add_quote_fresh_store (bot : Bot) (event : Event) (q : str) :
  q <> [] -> LF ∉ q -> q ∉ Quotes.quotes (quotes bot) ->
  quotes (AddQuote.on_command bot event q).2 =
  Quotes.mk (Quotes.quotes (quotes bot) ++ [q])
            (Quotes.quotesfd (quotes bot) ++ q ++ [LF]).
Proof.
  intros H1 H2 H3. rewrite (add_quote_fresh bot event q H1 H2 H3).
  destruct (topics bot !! target event) as [topic|]; [|reflexivity].
  destruct (_ && _); reflexivity.
Qed.

(** X18: once a fresh valid quote was sent with the add command, it is in
    the store whatever the topic cache held (also when the first pass
    ended in the logged [KeyError]), and the same message sent again is
    answered with the duplicate notice and stores nothing. *)
Theorem second_add_is_a_duplicate (bot : Bot) (event : Event) (q : str) :
  q <> [] -> LF ∉ q -> q ∉ Quotes.quotes (quotes bot) ->
  message event = trigger bot ++ py " add " ++ q ->
  Quotes.quotes (quotes (receive bot event)) = Quotes.quotes (quotes bot) ++ [q] /\
  receive (receive bot event) event =
    Eggy.respond (receive bot event) event (py "ooooold") /\
  quotes (receive (receive bot event) event) = quotes (receive bot event).
Proof.
  intros H1 H2 H3 Hm.
  assert (quotes (receive bot event) =
          Quotes.mk (Quotes.quotes (quotes bot) ++ [q])
                    (Quotes.quotesfd (quotes bot) ++ q ++ [LF])) as Es.
  { rewrite receive_store, (add_quote_prefix _ _ _ Hm).
    apply add_quote_fresh_store; assumption. }
  assert (receive (receive bot event) event =
          Eggy.respond (receive bot event) event (py "ooooold")) as E2.
  { apply receive_add_quote.
    rewrite (add_quote_prefix _ _ q)
      by (rewrite receive_keeps_trigger; exact Hm).
    unfold AddQuote.on_command.
    assert (Quotes.contains (quotes (receive bot event)) q = true) as ->.
    { apply contains_spec. rewrite Es. cbn [Quotes.quotes].
      apply elem_of_app. right. apply list_elem_of_here. }
    reflexivity. }
  split; [rewrite Es; reflexivity|]. split; [exact E2|].
  rewrite E2. reflexivity.
Qed.

Lemma second_add_is_a_duplicate_witness :
  let bot := Eggy.__init__ [] (fun _ => 0%nat) in
  let event := says (py "alice") (py "#ravpython") (py "eggpy add hello world") in
  Quotes.quotes (quotes (receive bot event)) =
    Quotes.quotes (quotes bot) ++ [py "hello world"] /\
  receive (receive bot event) event =
    Eggy.respond (receive bot event) event (py "ooooold") /\
  quotes (receive (receive bot event) event) = quotes (receive bot event).
Proof.
  apply (second_add_is_a_duplicate
           (Eggy.__init__ [] (fun _ => 0%nat))
           (says (py "alice") (py "#ravpython") (py "eggpy add hello world"))
           (py "hello world")).
  - discriminate.
  - rewrite list_elem_of_In. simpl. intuition discriminate.
  - apply not_elem_of_nil.
  - reflexivity.
Defined.

(** ** The index command under the digit limit of [int()] *)




(** With the limit off, the handler is [GetQuote.on_message]. *)
Lemma get_quote_unlimited (bot : Bot) (event : Event) :
  GetQuoteLimited.on_message 0 bot event = GetQuote.on_message bot event.
Proof. reflexivity. Qed.






